(** * The Origin messaging client (class [Messaging]), embedded in Rocq

    The development follows the source of the client: the crypto helpers
    ([decryptEmsg]), the message codec ([processKeys], [decryptMessage],
    [processContent], [createEncrypted]), the log ingestor ([onMessageUpdate],
    [getRoom]) and the conversation API ([startConv], [sendConvMessage],
    [createOutOfBandMessage]).

    Conventions.
    - Conversation objects are JavaScript objects that are shared by
      reference (the room table [this.convs], the closure of a running
      [getRoom], the value returned by [startConv]).  They live in an object
      store [objs] and are named by locations.
    - The libraries the client is constructed with (CryptoJS, the ECIES
      module, web3, the JSON codec) are interfaces: type classes whose laws,
      where a statement needs them, are explicit hypotheses.
    - The replies of the key server, the clock and the random sources are the
      fields of a [World].
    - An [await]ed network reply is an argument of the continuation that
      consumes it ([getRoom_resume]).
    - The functions named after the asynchronous methods ([getRoom],
      [startConv], [sendConvMessage], [createOutOfBandMessage]) are the
      calls that no other handler interleaves with.  The transition system
      cuts every call at its [await]s ([Task], [resume]) and lets handlers
      and other calls run in between. *)

From Stdlib Require Import ZArith Bool Ascii Sorted.
From stdpp Require Import base option list gmap strings pretty.

Local Open Scope Z_scope.
Set Warnings "-register-all".

(** ** JavaScript numbers and loose comparison *)

Module Js.

(** Numbers are IEEE 754 doubles.  The numbers the engine meets are log
  indices and counters: [Int z] is the double whose value is the integer
  [z].  Arithmetic on them can also give an infinity or NaN.  Fractions do
  not occur among indices and are left out. *)
Inductive number : Type :=
| NaN
| Infinity (negative : bool)
| Int (z : Z).

(** A slot that holds a number or was never assigned. *)
Inductive value : Type :=
| Undefined
| Number (n : number).

#[global] Instance number_eq_dec : EqDecision number.
Proof. solve_decision. Defined.

#[global] Instance value_eq_dec : EqDecision value.
Proof. solve_decision. Defined.

(** ToNumber: [undefined] converts to NaN. *)
Definition ToNumber (v : value) : number :=
match v with
| Undefined => NaN
| Number n => n
end.

(** The double nearest to an integer: up to 2^53 the integer itself; beyond,
  the 53 leading bits are kept and the rest is rounded to nearest, ties to
  the even significand; from 2^1024 on the result is an infinity. *)
Definition of_Z (z : Z) : number :=
let a := Z.abs z in
if a <=? 9007199254740992 then Int z
else
  let e := Z.log2 a - 52 in
  let q := Z.shiftr a e in
  let r := Z.land a (Z.ones e) in
  let half := Z.shiftl 1 (e - 1) in
  let q := if (r <? half) || ((r =? half) && Z.even q) then q else q + 1 in
  if 1024 <=? Z.log2 (Z.shiftl q e) then Infinity (z <? 0)
  else Int (Z.sgn z * Z.shiftl q e).

(** Addition of doubles: the exact sum, rounded. *)
Definition number_add (a b : number) : number :=
match a, b with
| Int x, Int y => of_Z (x + y)
| Infinity s, Int _ | Int _, Infinity s => Infinity s
| Infinity s, Infinity s' => if Bool.eqb s s' then Infinity s else NaN
| NaN, _ | _, NaN => NaN
end.

(** [a + b] when neither operand is a string or an object. *)
Definition add (a b : value) : value :=
Number (number_add (ToNumber a) (ToNumber b)).

(** IEEE equality: NaN is equal to nothing, itself included. *)
Definition number_eqb (a b : number) : bool :=
match a, b with
| Int x, Int y => x =? y
| Infinity s, Infinity s' => Bool.eqb s s'
| _, _ => false
end.

(** Loose equality [a == b] on undefined and numbers. *)
Definition loose_eqb (a b : value) : bool :=
match a, b with
| Undefined, Undefined => true
| Number x, Number y => number_eqb x y
| _, _ => false
end.

(** [a != b] *)
Definition loose_neqb (a b : value) : bool := negb (loose_eqb a b).

(** String(v), as used by [roomId + '.' + index].  An integer is written
  with all its decimal digits; JavaScript does so below 10^21 and uses
  exponent notation from there on. *)
Definition to_string (v : value) : string :=
match v with
| Undefined => "undefined"
| Number NaN => "NaN"
| Number (Infinity false) => "Infinity"
| Number (Infinity true) => "-Infinity"
| Number (Int z) => pretty z
end.

(** A string is truthy unless it is empty. *)
Definition truthy_string (s : string) : bool :=
match s with
| EmptyString => false
| String _ _ => true
end.

(** [s.slice(b, e)]: negative positions count from the end, both are clamped
  to the string. *)
Definition rel_index (len i : Z) : Z :=
if i <? 0 then Z.max (len + i) 0 else Z.min i len.

Definition slice (s : string) (b e : Z) : string :=
let len := Z.of_nat (String.length s) in
let from := rel_index len b in
let to := rel_index len e in
let span := Z.max (to - from) 0 in
String.substring (Z.to_nat from) (Z.to_nat span) s.

(** [s.substr(start)]: to the end of the string. *)
Definition substr_from (s : string) (start : Z) : string :=
let len := Z.of_nat (String.length s) in
let from := rel_index len start in
String.substring (Z.to_nat from) (Z.to_nat (len - from)) s.

(** [s.substr(start, n)] *)
Definition substr (s : string) (start n : Z) : string :=
let len := Z.of_nat (String.length s) in
let from := rel_index len start in
let span := Z.min (Z.max n 0) (len - from) in
String.substring (Z.to_nat from) (Z.to_nat span) s.

End Js.

(** ** JSON data and the message schema *)

(** Parsed JSON.  The schema only looks at the kind of a number, never at its
    value, and the one number the client writes is the millisecond clock. *)
Inductive json : Type :=
  | JNull
  | JBool (b : bool)
  | JNum (n : Z)
  | JStr (s : string)
  | JArr (items : list json)
  | JObj (props : list (string * json)).

(** [obj.k]: the first binding of [k]. *)
Fixpoint get_prop (k : string) (props : list (string * json)) : option json :=
  match props with
  | [] => None
  | (k', v) :: rest => if String.eqb k k' then Some v else get_prop k rest
  end.

(** [obj.k = v]: an existing property keeps its place, a new one goes last. *)
Fixpoint set_prop (k : string) (v : json) (props : list (string * json))
  : list (string * json) :=
  match props with
  | [] => [(k, v)]
  | (k', v') :: rest =>
      if String.eqb k k' then (k', v) :: rest else (k', v') :: set_prop k v rest
  end.

Definition is_string (j : json) : bool :=
  match j with JStr _ => true | _ => false end.
Definition is_number (j : json) : bool :=
  match j with JNum _ => true | _ => false end.
Definition is_array (j : json) : bool :=
  match j with JArr _ => true | _ => false end.

(** A keyword under [properties] constrains a property only when present. *)
Definition when_present (k : string) (props : list (string * json))
    (check : json → bool) : bool :=
  match get_prop k props with
  | None => true
  | Some v => check v
  end.

Definition has_prop (k : string) (props : list (string * json)) : bool :=
  match get_prop k props with
  | None => false
  | Some _ => true
  end.

(** [MESSAGE_FORMAT.properties.decryption] *)
Definition validate_decryption (j : json) : bool :=
  match j with
  | JObj props =>
      has_prop "keys" props && has_prop "roomId" props
      && when_present "keys" props
           (λ ks, match ks with
                  | JArr items => forallb is_string items
                  | _ => false
                  end)
      && when_present "roomId" props is_string
  | _ => false
  end.

(** [validateMessage], the compiled [MESSAGE_FORMAT]. *)
Definition validateMessage (j : json) : bool :=
  match j with
  | JObj props =>
      has_prop "created" props
      && when_present "content" props is_string
      && when_present "media" props is_array
      && when_present "created" props is_number
      && when_present "decryption" props validate_decryption
  | _ => false
  end.

(** Truthiness of a parsed value. *)
Definition json_truthy (j : json) : bool :=
  match j with
  | JNull => false
  | JBool b => b
  | JNum n => negb (n =? 0)
  | JStr s => Js.truthy_string s
  | JArr _ | JObj _ => true
  end.

(** ** The libraries the client is constructed with *)

(** CryptoJS.  [AES_encrypt m k iv] is
    [CryptoJS.AES.encrypt(m, k, {iv}).toString()], [AES_decrypt c k iv] is
    [CryptoJS.AES.decrypt(c, k, {iv})], and [enc_Utf8 w] is
    [w.toString(CryptoJS.enc.Utf8)], which throws on malformed UTF-8
    ([None]). *)
Class CryptoJS : Type := {
  WordArray : Type;
  AES_encrypt : string → string → WordArray → string;
  AES_decrypt : string → string → WordArray → WordArray;
  enc_Utf8 : WordArray → option string;
  Base64_parse : string → WordArray;
  Base64_stringify : WordArray → string;
  SHA1 : string → WordArray;
}.

(** What the codec relies on: decrypting under the key and IV of the
    encryption gives the text back, and a base64 SHA-1 has 28 characters. *)
Class CryptoJSLaws `{CryptoJS} : Prop := {
  AES_decrypt_encrypt : ∀ text key iv,
    enc_Utf8 (AES_decrypt (AES_encrypt text key iv) key
                (Base64_parse (Base64_stringify iv))) = Some text;
  SHA1_base64_length : ∀ text,
    String.length (Base64_stringify (SHA1 text)) = 28%nat;
}.

(** The ECIES module behind [ecEncrypt] and [ecDecrypt], hex and buffer
    conversions included; decryption throws on a blob it cannot open
    ([None]). *)
Class Ecies : Type := {
  ecies_encrypt : string → string → string;
  ecies_decrypt : string → string → option string;
}.

(** [JSON.parse] throws on malformed text ([None]). *)
Class JSONCodec : Type := {
  JSON_parse : string → option json;
  JSON_stringify : json → string;
}.

Module Account.
Record t : Type := mk { address : string; privateKey : string; publicKey : string }.
End Account.

Module RegistryEntry.
Record t : Type := mk { address : string; pub_key : string }.
End RegistryEntry.

(** ** Content envelopes and log entries *)

Module KeyEntry.
Record t : Type := mk { ekey : string; maddress : string; address : string }.
End KeyEntry.

(** The tagged union [{type: 'keys' | 'msg' | ...}].  [to] is only present on
    an out-of-band envelope. *)
Inductive Content : Type :=
  | ContentKeys (address : string) (keys : list KeyEntry.t)
  | ContentMsg (emsg i address : string) (to : option string)
  | ContentOther (type : string).

(** A frame of the live stream or an element of the bulk reply.  A frame is
    whatever JSON the server sent: [content] and [conversationId] may be
    missing. *)
Module Entry.
Record t : Type := mk {
  content : option Content;
  conversationId : option string;
  conversationIndex : Js.value;
}.
End Entry.

(** What [toMessage] builds. *)
Module Message.
Record t : Type := mk {
  msg : json;
  room_id : string;
  index : Js.value;
  address : string;
  hash : string;
}.
End Message.

Inductive Event : Type :=
  | EventMsg (message : Message.t)
  | EventEmsg (message : Message.t).

(** A [POST /messages/<conversationId>/<conversationIndex>]. *)
Module Post.
Record t : Type := mk {
  conversationId : string;
  conversationIndex : Js.value;
  content : Content;
  signature : string;
}.
End Post.

(** ** Conversation objects and the engine *)

(** The properties the client ever writes on a conversation object.
    [getRoom] creates [{keys: [], messages: []}], [startConv] creates
    [{keys: [], messageCount: 0}] (whose absent [messages] is never read). *)
Module ConvObj.
Record t : Type := mk {
  keys : list string;
  messages : list Message.t;
  lastConversationIndex : Js.value;
  messageCount : Js.value;
}.

(** [convObj.conversationIndex]: no conversation object has this property. *)
Definition conversationIndex (_ : t) : Js.value := Js.Undefined.

Definition set_keys (ks : list string) (c : t) : t :=
  mk ks (messages c) (lastConversationIndex c) (messageCount c).
Definition push_message (m : Message.t) (c : t) : t :=
  mk (keys c) (messages c ++ [m]) (lastConversationIndex c) (messageCount c).
Definition set_lastConversationIndex (v : Js.value) (c : t) : t :=
  mk (keys c) (messages c) v (messageCount c).
Definition set_messageCount (v : Js.value) (c : t) : t :=
  mk (keys c) (messages c) (lastConversationIndex c) v.
End ConvObj.

(** Locations of the object store. *)
Abbreviation loc := nat (only parsing).

(** The engine: the fields of [Messaging] the modelled methods use, the
    object store, and what the engine has done to the outside so far (events
    emitted, envelopes posted, bulk fetches started and not yet answered). *)
Record Messaging : Type := mkMessaging {
  account_key : string;
  account : option Account.t;
  convs : gmap string loc;
  objs : list ConvObj.t;
  _registryCache : gmap string RegistryEntry.t;
  _sending_message : bool;
  emitted : list Event;
  posted : list Post.t;
  fetching : list (string * loc);
}.

Definition set_convs (f : gmap string loc → gmap string loc) (st : Messaging) :=
  mkMessaging (account_key st) (account st) (f (convs st)) (objs st)
    (_registryCache st) (_sending_message st) (emitted st) (posted st) (fetching st).
Definition set_objs (f : list ConvObj.t → list ConvObj.t) (st : Messaging) :=
  mkMessaging (account_key st) (account st) (convs st) (f (objs st))
    (_registryCache st) (_sending_message st) (emitted st) (posted st) (fetching st).
Definition set_registryCache
    (f : gmap string RegistryEntry.t → gmap string RegistryEntry.t) (st : Messaging) :=
  mkMessaging (account_key st) (account st) (convs st) (objs st)
    (f (_registryCache st)) (_sending_message st) (emitted st) (posted st) (fetching st).
Definition set_sending_message (b : bool) (st : Messaging) :=
  mkMessaging (account_key st) (account st) (convs st) (objs st)
    (_registryCache st) b (emitted st) (posted st) (fetching st).
Definition set_fetching (f : list (string * loc) → list (string * loc)) (st : Messaging) :=
  mkMessaging (account_key st) (account st) (convs st) (objs st)
    (_registryCache st) (_sending_message st) (emitted st) (posted st) (f (fetching st)).

(** [this.events.emit(...)] *)
Definition emit (e : Event) (st : Messaging) : Messaging :=
  mkMessaging (account_key st) (account st) (convs st) (objs st)
    (_registryCache st) (_sending_message st) (emitted st ++ [e]) (posted st) (fetching st).

(** The request leaves the engine. *)
Definition post (p : Post.t) (st : Messaging) : Messaging :=
  mkMessaging (account_key st) (account st) (convs st) (objs st)
    (_registryCache st) (_sending_message st) (emitted st) (posted st ++ [p]) (fetching st).

(** The object a location names.  Every location the engine holds was
    allocated, so the default is never read. *)
Definition empty_obj : ConvObj.t := ConvObj.mk [] [] Js.Undefined Js.Undefined.

Definition deref (st : Messaging) (l : loc) : ConvObj.t :=
  default empty_obj (objs st !! l).

(** An in-place write to the object at [l]. *)
Definition mutate (l : loc) (f : ConvObj.t → ConvObj.t) (st : Messaging) : Messaging :=
  set_objs (alter f l) st.

(** A new object; its location is the next free one. *)
Definition alloc (c : ConvObj.t) (st : Messaging) : loc * Messaging :=
  (length (objs st), set_objs (λ os, os ++ [c]) st).

(** How a method ends. *)
Inductive outcome (A : Type) : Type :=
  | Return (a : A) (st : Messaging)
  | Throw (error : string) (st : Messaging).
Arguments Return {A} a st.
Arguments Throw {A} error st.

Definition state_of {A} (o : outcome A) : Messaging :=
  match o with
  | Return _ st | Throw _ st => st
  end.

Definition COULD_NOT_DECRYPT : string := "Could not decrypt".
Definition INVALID_MESSAGE_OBJECT : string := "Invalid message object".

(** What [decryptMessage] returns: [{content: obj}] or [{error: e}]. *)
Inductive Decrypted : Type :=
  | DecryptedContent (obj : json)
  | DecryptedError (e : string).

(** ** The codec *)

Section Codec.
Context `{CryptoJS} `{Ecies} `{JSONCodec}.

(** [decryptEmsg(ivStr, msg, key)].  [None] is [undefined]. *)
Definition decryptEmsg (ivStr msg key : string) : option string :=
  let buffer := AES_decrypt msg key (Base64_parse ivStr) in
  match enc_Utf8 buffer with
  | None => None
  | Some outText =>
      if Js.truthy_string outText && (6 <? Z.of_nat (String.length outText)) then
        let verifyText := Js.slice outText 0 (-6) in
        let shaCheck := Js.substr_from outText (-6) in
        if String.eqb shaCheck
             (Js.substr (Base64_stringify (SHA1 verifyText)) 0 6)
        then Some verifyText
        else None
      else None
  end.

(** The tag of a text, as both directions compute it: the first six
    base64 characters of its SHA-1. *)
Definition sha_tag (text : string) : string :=
  Js.substr (Base64_stringify (SHA1 text)) 0 6.

(** [ecDecrypt(buffer)]: the outer [None] is an exception of the ECIES
    module, the inner one the [undefined] returned without an account. *)
Definition ecDecrypt (st : Messaging) (buffer : string) : option (option string) :=
  match account st with
  | Some a =>
      match ecies_decrypt (Account.privateKey a) buffer with
      | Some text => Some (Some text)
      | None => None
      end
  | None => Some None
  end.

(** [ecEncrypt(text, pubKey)]; with a falsy [pubKey] it reads
    [this.account.publicKey], which throws without an account ([None]). *)
Definition ecEncrypt (st : Messaging) (text : string) (pubKey : option string)
  : option string :=
  let own :=
    match account st with
    | Some a => Some (ecies_encrypt (Account.publicKey a) text)
    | None => None
    end in
  match pubKey with
  | Some pk => if Js.truthy_string pk then Some (ecies_encrypt pk text) else own
  | None => own
  end.

(** In the words of the specification: the key an entry of a [keys]
    envelope hands to this engine, if any.  The entry is addressed to the
    engine's wallet address and unwraps to a non-empty text. *)
Definition recovered (st : Messaging) (v : KeyEntry.t) : option string :=
  if decide (KeyEntry.address v = account_key st) then
    match ecDecrypt st (KeyEntry.ekey v) with
    | Some (Some key) => if Js.truthy_string key then Some key else None
    | _ => None
    end
  else None.

(** The entries of the [keys] envelopes of a log, in the order of the
    log. *)
Definition key_entries (log : list Entry.t) : list KeyEntry.t :=
  log ≫= λ entry,
    match Entry.content entry with
    | Some (ContentKeys _ entries) => entries
    | _ => []
    end.

(** [keys.includes(key)] *)
Definition includes (key : string) (keys : list string) : bool :=
  existsb (String.eqb key) keys.

(** The body of the loop of [processKeys], on the key list of [convObj]. *)
Definition processKey (st : Messaging) (keys : list string) (v : KeyEntry.t)
  : list string :=
  if String.eqb (KeyEntry.address v) (account_key st) then
    (* try { key = this.ecDecrypt(v.ekey) } catch (e) { } *)
    let key := default None (ecDecrypt st (KeyEntry.ekey v)) in
    match key with
    | Some key =>
        if Js.truthy_string key && negb (includes key keys)
        then keys ++ [key]
        else keys
    | None => keys
    end
  else keys.

(** [processKeys(content, convObj)], [content.keys] given. *)
Definition processKeys (keys : list KeyEntry.t) (convObj : loc) (st : Messaging)
  : Messaging :=
  mutate convObj
    (λ c, ConvObj.set_keys (foldl (processKey st) (ConvObj.keys c) keys) c) st.

(** The loop of [decryptMessage] over [convObj.keys]. *)
Fixpoint decryptMessage_keys (i emsg : string) (keys : list string) : Decrypted :=
  match keys with
  | [] => DecryptedError COULD_NOT_DECRYPT
  | key :: rest =>
      match decryptEmsg i emsg key with
      | Some buffer =>
          match JSON_parse buffer with
          | None => DecryptedError INVALID_MESSAGE_OBJECT
          | Some obj =>
              if negb (validateMessage obj)
              then DecryptedError INVALID_MESSAGE_OBJECT
              else DecryptedContent obj
          end
      | None => decryptMessage_keys i emsg rest
      end
  end.

(** [decryptMessage(content, convObj)] for a [msg] envelope. *)
Definition decryptMessage (i emsg : string) (convObj : ConvObj.t) : Decrypted :=
  decryptMessage_keys i emsg (ConvObj.keys convObj).

(** A callback of [processContent]: [(msg, address) => ...]. *)
Definition Callback : Type := json → string → Messaging → Messaging.

(** [processContent(content, convObj, onMessage, onEncrypted)] *)
Definition processContent (content : Content) (convObj : loc)
    (onMessage onEncrypted : Callback) (st : Messaging) : Messaging :=
  match content with
  | ContentKeys _ keys => processKeys keys convObj st
  | ContentMsg emsg i address _ =>
      match decryptMessage i emsg (deref st convObj) with
      | DecryptedError e =>
          if String.eqb e COULD_NOT_DECRYPT then
            onEncrypted (JStr emsg) address st
          else if String.eqb e INVALID_MESSAGE_OBJECT then
            st
          else st
      | DecryptedContent obj =>
          if json_truthy obj then onMessage obj address st else st
      end
  | ContentOther _ => st
  end.

(** [getMessageId(roomId, container)] *)
Definition getMessageId (roomId : string) (container : Entry.t) : string :=
  roomId +:+ "." +:+ Js.to_string (Entry.conversationIndex container).

(** [toMessage(msg, roomId, container, address)] *)
Definition toMessage (msg : json) (roomId : string) (container : Entry.t)
    (address : string) : Message.t :=
  Message.mk msg roomId (Entry.conversationIndex container) address
    (getMessageId roomId container).

(** The two callbacks [onMessageUpdate] and [getRoom] pass to
    [processContent]. *)
Definition onMessage_cb (roomId : string) (entry : Entry.t) (convObj : loc)
  : Callback :=
  λ msg address st,
    let message := toMessage msg roomId entry address in
    emit (EventMsg message) (mutate convObj (ConvObj.push_message message) st).

Definition onEncrypted_cb (roomId : string) (entry : Entry.t) : Callback :=
  λ msg address st,
    emit (EventEmsg (toMessage msg roomId entry address)) st.

(** The two assignments that follow [processContent] in both ingestion
    paths. *)
Definition advance (entry : Entry.t) (convObj : loc) (st : Messaging) : Messaging :=
  mutate convObj
    (λ c, ConvObj.set_messageCount
            (Js.add (Entry.conversationIndex entry) (Js.Number (Js.Int 1)))
            (ConvObj.set_lastConversationIndex (Entry.conversationIndex entry) c))
    st.

(** The synchronous head of [getRoom(roomId)]: a fresh object takes the
    room's place in [this.convs] and the bulk fetch is scheduled. *)
Definition getRoom_begin (roomId : string) (st : Messaging) : loc * Messaging :=
  let '(convObj, st) := alloc (ConvObj.mk [] [] Js.Undefined Js.Undefined) st in
  (convObj, set_fetching (λ fs, fs ++ [(roomId, convObj)])
              (set_convs <[roomId := convObj]> st)).

(** [messages.forEach(entry => ...)] on the object the closure holds.  An
    entry without [content] makes [processContent] read [undefined.type]:
    the exception leaves the loop. *)
Fixpoint getRoom_forEach (roomId : string) (convObj : loc)
    (messages : list Entry.t) (st : Messaging) : outcome unit :=
  match messages with
  | [] => Return () st
  | entry :: rest =>
      match Entry.content entry with
      | None => Throw "TypeError" st
      | Some content =>
          let st := processContent content convObj
                      (onMessage_cb roomId entry convObj)
                      (onEncrypted_cb roomId entry) st in
          getRoom_forEach roomId convObj rest (advance entry convObj st)
      end
  end.

(** The rest of [getRoom] once the server has answered with [messages]. *)
Definition getRoom_resume (roomId : string) (convObj : loc)
    (messages : list Entry.t) (st : Messaging) : outcome unit :=
  getRoom_forEach roomId convObj messages
    (set_fetching (filter (λ f, f ≠ (roomId, convObj))) st).

(** A bulk load that no other handler interleaves with. *)
Definition getRoom (roomId : string) (messages : list Entry.t) (st : Messaging)
  : outcome unit :=
  let '(convObj, st) := getRoom_begin roomId st in
  getRoom_resume roomId convObj messages st.

(** [onMessageUpdate(entry)].  A call of [getRoom] is not awaited: its
    head runs, the fetch is left pending. *)
Definition onMessageUpdate (entry : Entry.t) (st : Messaging) : Messaging :=
  match Entry.content entry, Entry.conversationId entry with
  | Some content, Some conversationId =>
      if Js.truthy_string conversationId then
        match convs st !! conversationId with
        | None => (getRoom_begin conversationId st).2
        | Some convObj =>
            if Js.loose_neqb (Entry.conversationIndex entry)
                 (Js.add (ConvObj.conversationIndex (deref st convObj))
                         (Js.Number (Js.Int 1)))
            then
              let st := processContent content convObj
                          (onMessage_cb conversationId entry convObj)
                          (onEncrypted_cb conversationId entry) st in
              advance entry convObj st
            else
              (* we are missing a message *)
              (getRoom_begin conversationId st).2
        end
      else st
  | _, _ => st
  end.

End Codec.

(** ** The conversation API *)

(** web3: address utilities and the signature of the messaging account.  The
    argument of [toChecksumAddress] may be [undefined] ([None]); it throws on
    what it does not accept ([None]). *)
Class Web3 : Type := {
  isAddress : string → bool;
  toChecksumAddress : option string → option string;
  account_sign : Account.t → string → string;
  (* json-stable-stringify of {conversationId, conversationIndex, content} *)
  stringify : string → Js.value → Content → string;
}.

(** What the outside answers: the key server ([GET /accounts/<key>] replies
    200 with an entry or not; a POST is answered 200 or not), the clock, and
    the two random sources. *)
Class World `{CryptoJS} : Type := {
  GET_accounts : string → option RegistryEntry.t;
  POST_messages : Post.t → bool;
  Date_now : Z;
  WordArray_random : WordArray;
  cryptoRandomString : string;
}.

(** The [messageObj] argument of the send functions: text or an object. *)
Inductive MessageArg : Type :=
  | MessageText (s : string)
  | MessageObject (props : list (string * json)).

(** [str.split('-')] *)
Fixpoint split_dash (acc : string) (s : string) : list string :=
  match s with
  | EmptyString => [acc]
  | String c rest =>
      if Ascii.eqb c "-"%char then acc :: split_dash "" rest
      else split_dash (acc +:+ String c "") rest
  end.

(** [str.includes('-')] *)
Fixpoint isRoomId (s : string) : bool :=
  match s with
  | EmptyString => false
  | String c rest => Ascii.eqb c "-"%char || isRoomId rest
  end.

Definition getRecipients (key : string) : list string := split_dash "" key.

Section Conversation.
Context `{CryptoJS} `{Ecies} `{JSONCodec} `{Web3} `{!World}.

(** [generateRoomId(converser1, converser2)]: checksum both, sort, join. *)
Definition generateRoomId (converser1 converser2 : string) : option string :=
  match toChecksumAddress (Some converser1), toChecksumAddress (Some converser2) with
  | Some k1, Some k2 =>
      (* keys.sort() on two strings *)
      if String.ltb k2 k1 then Some (k2 +:+ "-" +:+ k1)
      else Some (k1 +:+ "-" +:+ k2)
  | _, _ => None
  end.

(** [getRegisteredKey(key)]: the cache, then the server; only a 200 reply
    is cached. *)
Definition getRegisteredKey (key : string) (st : Messaging)
  : option RegistryEntry.t * Messaging :=
  match _registryCache st !! key with
  | Some entry => (Some entry, st)
  | None =>
      match GET_accounts key with
      | Some jEntry => (Some jEntry, set_registryCache <[key := jEntry]> st)
      | None => (None, st)
      end
  end.

(** [addRoomMsg(conversationId, conversationIndex, content)]: signs (which
    throws without an account), posts, and reports whether the reply was
    200. *)
Definition addRoomMsg (conversationId : string) (conversationIndex : Js.value)
    (content : Content) (st : Messaging) : outcome bool :=
  match account st with
  | None => Throw "TypeError" st
  | Some a =>
      let data := stringify conversationId conversationIndex content in
      let signature := account_sign a data in
      let request := Post.mk conversationId conversationIndex content signature in
      Return (POST_messages request) (post request st)
  end.

(** [startConv(remoteEthAddress)]; it returns [undefined] ([None]) or the
    conversation object. *)
Definition startConv (remoteEthAddress : string) (st : Messaging)
  : outcome (option loc) :=
  let '(entry, st) := getRegisteredKey remoteEthAddress st in
  match entry with
  | None => Return None st
  | Some entry =>
      match generateRoomId (account_key st) remoteEthAddress with
      | None => Throw "Error" st
      | Some roomId =>
          (* this.convs[roomId] || { keys: [], messageCount: 0 } *)
          let '(convObj, st) :=
            match convs st !! roomId with
            | Some convObj => (convObj, st)
            | None => alloc (ConvObj.mk [] [] Js.Undefined (Js.Number (Js.Int 0))) st
            end in
          if (length (ConvObj.keys (deref st convObj)) =? 0)%nat then
            let conversationIndex := ConvObj.messageCount (deref st convObj) in
            let encryptKey := cryptoRandomString in
            match ecEncrypt st encryptKey None, account st with
            | Some ekey_mine, Some a =>
                match ecEncrypt st encryptKey (Some (RegistryEntry.pub_key entry)) with
                | Some ekey_remote =>
                    let keysContent :=
                      ContentKeys (account_key st)
                        [ KeyEntry.mk ekey_mine (Account.address a) (account_key st);
                          KeyEntry.mk ekey_remote (RegistryEntry.address entry)
                            remoteEthAddress ] in
                    match addRoomMsg roomId conversationIndex keysContent st with
                    | Throw e st => Throw e st
                    | Return result st =>
                        if result then
                          Return (Some convObj)
                            (mutate convObj
                               (λ c, ConvObj.set_messageCount
                                       (Js.add (ConvObj.messageCount c)
                                               (Js.Number (Js.Int 1)))
                                       (ConvObj.set_keys (ConvObj.keys c ++ [encryptKey]) c))
                               st)
                        else Return (Some convObj) st
                    end
                | None => Throw "TypeError" st
                end
            | _, _ => Throw "TypeError" st
            end
          else Return (Some convObj) st
      end
  end.

(** [createEncrypted(address, convObj, messageObj)]; it returns [undefined]
    ([None]) for a message the schema rejects.  Without a first key,
    [CryptoJS.AES.encrypt] is handed [undefined] and throws. *)
Definition createEncrypted (address : string) (convObj : loc)
    (messageObj : MessageArg) (st : Messaging) : outcome (option Content) :=
  if negb (isAddress address) then
    Throw (address +:+ " is not a valid Ethereum address") st
  else
    match toChecksumAddress (Some address) with
    | None => Throw "Error" st
    | Some remoteEthAddress =>
        let messageObj :=
          match messageObj with
          | MessageText s => [("content", JStr s)]
          | MessageObject props => props
          end in
        (* Object.assign({}, messageObj); message.created = Date.now() *)
        let message := JObj (set_prop "created" (JNum Date_now) messageObj) in
        if negb (validateMessage message) then Return None st
        else
          match ConvObj.keys (deref st convObj) !! 0%nat with
          | None => Throw "TypeError" st
          | Some key =>
              let iv := WordArray_random in
              let messageStr := JSON_stringify message in
              let shaSub := Js.substr (Base64_stringify (SHA1 messageStr)) 0 6 in
              let encmsg := AES_encrypt (messageStr +:+ shaSub) key iv in
              let ivStr := Base64_stringify iv in
              Return (Some (ContentMsg encmsg ivStr (account_key st) None)) st
          end
    end.

(** [find(addr => addr !== this.account_key)] *)
Definition find_remote (st : Messaging) (recipients : list string) : option string :=
  List.find (λ addr, negb (String.eqb addr (account_key st))) recipients.

(** [sendConvMessage(roomIdOrAddress, messageObj)]; it returns [undefined]
    ([None]) or the room id. *)
Definition sendConvMessage (roomIdOrAddress : string) (messageObj : MessageArg)
    (st : Messaging) : outcome (option string) :=
  if _sending_message st then Return None st
  else
    let resolved : option (option string * option string) :=
      if isRoomId roomIdOrAddress then
        Some (find_remote st (getRecipients roomIdOrAddress), Some roomIdOrAddress)
      else if negb (isAddress roomIdOrAddress) then None
      else Some (Some roomIdOrAddress,
                 generateRoomId (account_key st) roomIdOrAddress) in
    match resolved with
    | None => Throw (roomIdOrAddress +:+ " is not a valid Ethereum address") st
    | Some (_, None) => Throw "Error" st
    | Some (remoteEthAddress, Some roomId) =>
        match toChecksumAddress remoteEthAddress with
        | None => Throw "Error" st
        | Some remoteEthAddress =>
            match startConv remoteEthAddress st with
            | Throw e st => Throw e st
            | Return None st => Return None st
            | Return (Some convObj) st =>
                match createEncrypted remoteEthAddress convObj messageObj st with
                | Throw e st => Throw e st
                | Return None st => Return None st
                | Return (Some encryptedContent) st =>
                    let st := set_sending_message true st in
                    match addRoomMsg roomId (ConvObj.messageCount (deref st convObj))
                            encryptedContent st with
                    | Throw e st => Throw e st
                    | Return _ st => Return (Some roomId) (set_sending_message false st)
                    end
                end
            end
        end
    end.

(** [encryptedContent.to = myAddress] *)
Definition set_to (to : string) (content : Content) : Content :=
  match content with
  | ContentMsg emsg i address _ => ContentMsg emsg i address (Some to)
  | other => other
  end.

(** [createOutOfBandMessage(address, messageObj)] *)
Definition createOutOfBandMessage (address : string) (messageObj : MessageArg)
    (st : Messaging) : outcome (option Content) :=
  if negb (isAddress address) then
    Throw (address +:+ " is not a valid Ethereum address") st
  else
    match toChecksumAddress (Some address) with
    | None => Throw "Error" st
    | Some remoteEthAddress =>
        match startConv remoteEthAddress st with
        | Throw e st => Throw e st
        | Return None st => Return None st
        | Return (Some convObj) st =>
            match createEncrypted remoteEthAddress convObj messageObj st with
            | Throw e st => Throw e st
            | Return None st => Return None st
            | Return (Some encryptedContent) st =>
                match toChecksumAddress (Some remoteEthAddress) with
                | None => Throw "Error" st
                | Some myAddress => Return (Some (set_to myAddress encryptedContent)) st
                end
            end
        end
    end.

End Conversation.

(** ** The engine as a transition system

    JavaScript runs a handler or a call until its next [await]; there any
    other handler or call may run before the suspended one goes on.  A
    suspended call is a [Task]: the point it waits at and the local variables
    it will use.  A bulk load waiting for its reply is an entry of
    [fetching]. *)

(** Who awaits [startConv]: [sendConvMessage], with its local variables, or
    a caller whose continuation does nothing to the engine (the client
    itself; [createOutOfBandMessage] and [decryptOutOfBandMessage], which
    only compute their result from then on). *)
Inductive Caller : Type :=
  | Reader
  | Sender (remoteEthAddress roomId : string) (messageObj : MessageArg).

Inductive Task : Type :=
  (* [getRegisteredKey] at [await fetch(...)]; called by [startConv] for
     [caller], or by [canReceiveMessages] *)
  | AwaitAccount (key : string) (caller : option Caller)
  (* [startConv] at [await this.getRegisteredKey(...)], which has
     resolved to [entry] *)
  | AwaitEntry (remoteEthAddress : string) (entry : option RegistryEntry.t)
      (caller : Caller)
  (* [startConv] at [await this.addRoomMsg(...)]; [result] is the reply to
     the POST, on its way *)
  | AwaitKeysPost (convObj : loc) (encryptKey : string) (result : bool)
      (caller : Caller)
  (* [sendConvMessage] at [await this.startConv(...)], which has resolved
     to [convObj] *)
  | AwaitConv (convObj : option loc) (remoteEthAddress roomId : string)
      (messageObj : MessageArg)
  (* [sendConvMessage] at [await this.createEncrypted(...)], which has
     resolved to [content] *)
  | AwaitContent (roomId : string) (convObj : loc) (content : option Content)
  (* [sendConvMessage] at [await this.addRoomMsg(...)] *)
  | AwaitMsgPost.

(** How far a task is from the end of its call: the number of [await]s
    the call may still meet, this one included. *)
Definition rank (t : option Task) : nat :=
  match t with
  | Some (AwaitAccount _ _) => 6
  | Some (AwaitEntry _ _ _) => 5
  | Some (AwaitKeysPost _ _ _ _) => 4
  | Some (AwaitConv _ _ _ _) => 3
  | Some (AwaitContent _ _ _) => 2
  | Some AwaitMsgPost => 1
  | None => 0
  end%nat.

Section Transitions.
Context `{CryptoJS} `{Ecies} `{JSONCodec} `{Web3} `{!World}.

(** A call or a resumption ends in the engine it leaves and, unless the call
    is over (returned or thrown), the task it is suspended as. *)
Definition Suspension : Type := Messaging * option Task.

(** [startConv] has returned [convObj]. *)
Definition settle (convObj : option loc) (caller : Caller) : option Task :=
  match caller with
  | Reader => None
  | Sender remoteEthAddress roomId messageObj =>
      Some (AwaitConv convObj remoteEthAddress roomId messageObj)
  end.

(** [startConv(remoteEthAddress)] up to its first [await]: the cache lookup
    of [getRegisteredKey], and its fetch when the cache has no entry. *)
Definition startConv_call (remoteEthAddress : string) (caller : Caller)
    (st : Messaging) : Suspension :=
  match _registryCache st !! remoteEthAddress with
  | Some entry => (st, Some (AwaitEntry remoteEthAddress (Some entry) caller))
  | None => (st, Some (AwaitAccount remoteEthAddress (Some caller)))
  end.

(** [getRegisteredKey] after its fetch: a 200 reply is cached and
    returned. *)
Definition getRegisteredKey_reply (key : string) (st : Messaging)
  : option RegistryEntry.t * Messaging :=
  match GET_accounts key with
  | Some jEntry => (Some jEntry, set_registryCache <[key := jEntry]> st)
  | None => (None, st)
  end.

(** [startConv] from the registry entry to the POST of the [keys] envelope
    or, when there is nothing to post, to its return. *)
Definition startConv_entry (remoteEthAddress : string)
    (entry : option RegistryEntry.t) (caller : Caller) (st : Messaging)
  : Suspension :=
  match entry with
  | None => (st, settle None caller)
  | Some entry =>
      match generateRoomId (account_key st) remoteEthAddress with
      | None => (st, None)
      | Some roomId =>
          let '(convObj, st) :=
            match convs st !! roomId with
            | Some convObj => (convObj, st)
            | None => alloc (ConvObj.mk [] [] Js.Undefined (Js.Number (Js.Int 0))) st
            end in
          if (length (ConvObj.keys (deref st convObj)) =? 0)%nat then
            let conversationIndex := ConvObj.messageCount (deref st convObj) in
            let encryptKey := cryptoRandomString in
            match ecEncrypt st encryptKey None, account st with
            | Some ekey_mine, Some a =>
                match ecEncrypt st encryptKey (Some (RegistryEntry.pub_key entry)) with
                | Some ekey_remote =>
                    let keysContent :=
                      ContentKeys (account_key st)
                        [ KeyEntry.mk ekey_mine (Account.address a) (account_key st);
                          KeyEntry.mk ekey_remote (RegistryEntry.address entry)
                            remoteEthAddress ] in
                    match addRoomMsg roomId conversationIndex keysContent st with
                    | Throw _ st => (st, None)
                    | Return result st =>
                        (st, Some (AwaitKeysPost convObj encryptKey result caller))
                    end
                | None => (st, None)
                end
            | _, _ => (st, None)
            end
          else (st, settle (Some convObj) caller)
      end
  end.

(** [startConv] after the POST: [if (result) { convObj.keys.push(encryptKey);
    convObj.messageCount += 1 }], then [return convObj]. *)
Definition startConv_posted (convObj : loc) (encryptKey : string) (result : bool)
    (caller : Caller) (st : Messaging) : Suspension :=
  (if result then
     mutate convObj
       (λ c, ConvObj.set_messageCount
               (Js.add (ConvObj.messageCount c) (Js.Number (Js.Int 1)))
               (ConvObj.set_keys (ConvObj.keys c ++ [encryptKey]) c))
       st
   else st,
   settle (Some convObj) caller).

(** [sendConvMessage] up to its first [await], which is inside
    [startConv]. *)
Definition sendConvMessage_call (roomIdOrAddress : string) (messageObj : MessageArg)
    (st : Messaging) : Suspension :=
  if _sending_message st then (st, None)
  else
    let resolved : option (option string * option string) :=
      if isRoomId roomIdOrAddress then
        Some (find_remote st (getRecipients roomIdOrAddress), Some roomIdOrAddress)
      else if negb (isAddress roomIdOrAddress) then None
      else Some (Some roomIdOrAddress,
                 generateRoomId (account_key st) roomIdOrAddress) in
    match resolved with
    | None => (st, None)
    | Some (_, None) => (st, None)
    | Some (remoteEthAddress, Some roomId) =>
        match toChecksumAddress remoteEthAddress with
        | None => (st, None)
        | Some remoteEthAddress =>
            startConv_call remoteEthAddress
              (Sender remoteEthAddress roomId messageObj) st
        end
    end.

(** [sendConvMessage] from the return of [startConv]: [createEncrypted]
    runs at once, its result is awaited. *)
Definition sendConvMessage_conv (convObj : option loc)
    (remoteEthAddress roomId : string) (messageObj : MessageArg) (st : Messaging)
  : Suspension :=
  match convObj with
  | None => (st, None)
  | Some convObj =>
      match createEncrypted remoteEthAddress convObj messageObj st with
      | Throw _ st => (st, None)
      | Return content st => (st, Some (AwaitContent roomId convObj content))
      end
  end.

(** [sendConvMessage] from the envelope to the POST of it. *)
Definition sendConvMessage_content (roomId : string) (convObj : loc)
    (content : option Content) (st : Messaging) : Suspension :=
  match content with
  | None => (st, None)
  | Some encryptedContent =>
      let st := set_sending_message true st in
      match addRoomMsg roomId (ConvObj.messageCount (deref st convObj))
              encryptedContent st with
      | Throw _ st => (st, None)
      | Return _ st => (st, Some AwaitMsgPost)
      end
  end.

(** [createOutOfBandMessage] up to its first [await]; what follows
    [startConv] computes the envelope and leaves the engine alone. *)
Definition createOutOfBandMessage_call (address : string) (st : Messaging)
  : Suspension :=
  if negb (isAddress address) then (st, None)
  else
    match toChecksumAddress (Some address) with
    | None => (st, None)
    | Some remoteEthAddress => startConv_call remoteEthAddress Reader st
    end.

(** [canReceiveMessages] up to the fetch of [getRegisteredKey], if any;
    [canConverseWith] does the same to the engine. *)
Definition canReceiveMessages_call (remoteEthAddress : string) (st : Messaging)
  : Suspension :=
  match toChecksumAddress (Some remoteEthAddress) with
  | None => (st, None)
  | Some address =>
      match _registryCache st !! address with
      | Some _ => (st, None)
      | None => (st, Some (AwaitAccount address None))
      end
  end.

(** A suspended call goes on, up to its next [await] or its end. *)
Definition resume (t : Task) (st : Messaging) : Suspension :=
  match t with
  | AwaitAccount key caller =>
      let '(entry, st) := getRegisteredKey_reply key st in
      (st, AwaitEntry key entry <$> caller)
  | AwaitEntry remoteEthAddress entry caller =>
      startConv_entry remoteEthAddress entry caller st
  | AwaitKeysPost convObj encryptKey result caller =>
      startConv_posted convObj encryptKey result caller st
  | AwaitConv convObj remoteEthAddress roomId messageObj =>
      sendConvMessage_conv convObj remoteEthAddress roomId messageObj st
  | AwaitContent roomId convObj content =>
      sendConvMessage_content roomId convObj content st
  | AwaitMsgPost => (set_sending_message false st, None)
  end.

(** A call that nothing interleaves with: each of its tasks is resumed as
    soon as it is suspended. *)
Fixpoint run (fuel : nat) (s : Suspension) : Messaging :=
  match s.2, fuel with
  | Some t, S fuel => run fuel (resume t s.1)
  | _, _ => s.1
  end.

(** The engine and the calls in flight. *)
Record Config : Type := mkConfig {
  engine : Messaging;
  tasks : list Task;
}.

Definition suspend (s : Suspension) (ts : list Task) : Config :=
  mkConfig s.1 (ts ++ option_list s.2).

(** One handler, one call up to its first [await], or one resumption.  The
    reply to a bulk fetch and the resumption of a task may come at any
    later time.  (At an [await] that does not wait for the network the
    scheduler of JavaScript only lets calls run that were started already;
    the relation allows any step there.) *)
Inductive step : Config → Config → Prop :=
  | step_onMessageUpdate c entry :
      step c (mkConfig (onMessageUpdate entry (engine c)) (tasks c))
  | step_getRoom c roomId :
      step c (mkConfig (getRoom_begin roomId (engine c)).2 (tasks c))
  | step_getRoom_reply c roomId convObj messages :
      (roomId, convObj) ∈ fetching (engine c) →
      step c (mkConfig (state_of (getRoom_resume roomId convObj messages (engine c)))
                (tasks c))
  | step_startConv c remoteEthAddress :
      step c (suspend (startConv_call remoteEthAddress Reader (engine c)) (tasks c))
  | step_sendConvMessage c roomIdOrAddress messageObj :
      step c (suspend (sendConvMessage_call roomIdOrAddress messageObj (engine c))
                (tasks c))
  | step_createOutOfBandMessage c address :
      step c (suspend (createOutOfBandMessage_call address (engine c)) (tasks c))
  | step_canReceiveMessages c remoteEthAddress :
      step c (suspend (canReceiveMessages_call remoteEthAddress (engine c)) (tasks c))
  | step_resume c ts1 t ts2 :
      tasks c = ts1 ++ t :: ts2 →
      step c (suspend (resume t (engine c)) (ts1 ++ ts2)).

(** The invariant of the room keystore: no conversation object lists a key
    twice. *)
Definition keys_deduplicated (st : Messaging) : Prop :=
  Forall (λ c, NoDup (ConvObj.keys c)) (objs st).

(** [init(key)] leaves the engine without rooms and without calls in
    flight. *)
Definition initial (c : Config) : Prop :=
  convs (engine c) = ∅ ∧ objs (engine c) = [] ∧ fetching (engine c) = []
  ∧ tasks c = [].

Definition reachable (c : Config) : Prop :=
  ∃ c0, initial c0 ∧ rtc step c0 c.

End Transitions.

Arguments run : simpl never.

(** ** A small instance of the libraries and of the outside

    A cipher that writes the key in front of the text, a digest that pads the
    text to 28 characters, a JSON codec that knows two texts, addresses that
    are already in checksummed form.  It serves to run the engine on concrete
    inputs. *)

Module Toy.

(** [strip key text] removes the prefix [key] from [text], if it is one. *)
Fixpoint strip (key text : string) : option string :=
  match key, text with
  | EmptyString, _ => Some text
  | String a key, String b text => if Ascii.eqb a b then strip key text else None
  | String _ _, EmptyString => None
  end.

Definition cryptojs : CryptoJS := {|
  WordArray := option string;
  AES_encrypt m k iv := k +:+ m;
  AES_decrypt c k iv := strip k c;
  enc_Utf8 w := w;
  Base64_parse s := Some s;
  Base64_stringify w := default "" w;
  SHA1 s := Some (String.substring 0 28 (s +:+ "============================"));
|}.

Definition ecies : Ecies := {|
  ecies_encrypt pub text := pub +:+ text;
  ecies_decrypt priv blob := strip priv blob;
|}.

Definition hi : json := JObj [("content", JStr "hi"); ("created", JNum 1700000000000)].

Definition jsoncodec : JSONCodec := {|
  JSON_parse s :=
    if String.eqb s "{content:hi,created:1700000000000}" then Some hi
    else if String.eqb s "{content:7}" then Some (JObj [("content", JNum 7)])
    else None;
  JSON_stringify j :=
    match j with
    | JObj [("content", JStr "hi"); ("created", JNum 1700000000000)] =>
        "{content:hi,created:1700000000000}"
    | _ => "null"
    end;
|}.

(** Three addresses in checksummed form (the examples of EIP-55), on which
    [toChecksumAddress] is the identity. *)
Definition alice : string := "0x5aAeb6053F3E94C9b9A09f33669435E7Ef1BeAed".
Definition bob : string := "0xfB6916095ca1df60bB79Ce92cE3Ea74c37c5d359".
Definition carol : string := "0xdbF03B407c01E7cD3CBea99509d93f8DDDC8C6FB".

Definition web3 : Web3 := {|
  isAddress a := String.prefix "0x" a && (String.length a =? 42)%nat;
  toChecksumAddress a :=
    match a with
    | Some a => if String.prefix "0x" a && (String.length a =? 42)%nat then Some a else None
    | None => Some ""
    end;
  account_sign a data := "sig";
  stringify conversationId conversationIndex content := conversationId;
|}.

(** Bob is enrolled, nobody else is; every POST is accepted. *)
Definition world : @World cryptojs :=
  @Build_World cryptojs
    (λ key, if String.eqb key bob then Some (RegistryEntry.mk "0xMB" "PB:") else None)
    (λ request, true)
    1700000000000
    (Some "iv")
    "k1".

Definition alice_account : Account.t := Account.mk "0xMA" "PA:" "PA:".

(** Alice's engine after [init] and [setAccount]. *)
Definition fresh : Messaging :=
  mkMessaging alice (Some alice_account) ∅ [] ∅ false [] [] [].

Definition room : string := alice +:+ "-" +:+ bob.

(** Alice's engine holding the room with Bob at location 0. *)
Definition with_room (c : ConvObj.t) : Messaging :=
  mkMessaging alice (Some alice_account) {[ room := 0%nat ]} [c] ∅ false [] [] [].

(** Bob's conversation object: an older key, then the key Alice encrypts
    under. *)
Definition bob_room : ConvObj.t :=
  ConvObj.mk ["k0"; "k1"] [] Js.Undefined Js.Undefined.

(** A [keys] envelope of Alice for Bob and herself, carrying the key k1. *)
Definition keys_k1 : Content :=
  ContentKeys alice [KeyEntry.mk "PA:k1" "0xMA" alice; KeyEntry.mk "PB:k1" "0xMB" bob].

(** A [keys] envelope with entries for Bob and Carol only. *)
Definition keys_for_others : Content :=
  ContentKeys bob [KeyEntry.mk "PB:k2" "0xMB" bob; KeyEntry.mk "PA:k3" "0xMC" carol].

(** Under k1: a text that is JSON but not a message. *)
Definition not_a_message : Content :=
  ContentMsg "k1{content:7}{conte" "iv" bob None.

(** The room's log: the key k1, announced twice, then Bob's ciphertext. *)
Definition log : list Entry.t :=
  [ Entry.mk (Some keys_k1) (Some room) (Js.Number (Js.Int 0));
    Entry.mk (Some keys_k1) (Some room) (Js.Number (Js.Int 1));
    Entry.mk (Some (ContentMsg "k1{content:hi,created:1700000000000}{conte" "iv" bob None))
      (Some room) (Js.Number (Js.Int 2)) ].

(** The room as the live stream and [startConv] left it. *)
Definition stale_room : ConvObj.t :=
  ConvObj.mk ["k7"]
    [Message.mk (JObj [("created", JNum 1)]) room (Js.Number (Js.Int 0)) bob
       (room +:+ ".0")]
    (Js.Number (Js.Int 0)) (Js.Number (Js.Int 1)).

#[local] Existing Instances cryptojs ecies jsoncodec web3 world.

(** The engine after a bulk load of the room's log. *)
Definition loaded : Messaging := state_of (getRoom room log fresh).

(** The envelope Alice creates for Bob out of band. *)
Definition out_of_band : Content :=
  ContentMsg "k1{content:hi,created:1700000000000}{conte" "iv" alice (Some bob).

End Toy.

(** ** Room ids, read-only views and the registry probe *)

(** [s.includes(c)] for a one-character [c]. *)
Fixpoint occurs (c : ascii) (s : string) : bool :=
  match s with
  | EmptyString => false
  | String c' rest => Ascii.eqb c' c || occurs c rest
  end.

(** The [msg] events of a list of events, in order. *)
Definition msg_events (events : list Event) : list Message.t :=
  omap (λ e, match e with EventMsg m => Some m | EventEmsg _ => None end) events.

(** The message every event carries. *)
Definition event_message (e : Event) : Message.t :=
  match e with EventMsg m | EventEmsg m => m end.

Section Views.
Context `{CryptoJS} `{Ecies} `{JSONCodec} `{Web3} `{!World}.

(** [getSharedKeys(roomId)]: [room ? room.keys || [] : []]. *)
Definition getSharedKeys (roomId : string) (st : Messaging) : list string :=
  match convs st !! roomId with
  | Some room => ConvObj.keys (deref st room)
  | None => []
  end.

(** [getConvo(ethAddress)] and [hasConversedWith(ethAddress)]: the room's
    object or [undefined]; the outer [None] is the exception of
    [toChecksumAddress]. *)
Definition getConvo (ethAddress : string) (st : Messaging) : option (option loc) :=
  match generateRoomId (account_key st) ethAddress with
  | Some roomId => Some (convs st !! roomId)
  | None => None
  end.

Definition hasConversedWith (ethAddress : string) (st : Messaging)
  : option (option loc) :=
  match generateRoomId (account_key st) ethAddress with
  | Some roomId => Some (convs st !! roomId)
  | None => None
  end.

(** [getMessagesCount(remoteEthAddress)]: the room's [messageCount], 0
    without a room. *)
Definition getMessagesCount (remoteEthAddress : string) (st : Messaging)
  : option Js.value :=
  match generateRoomId (account_key st) remoteEthAddress with
  | Some roomId =>
      match convs st !! roomId with
      | Some convObj => Some (ConvObj.messageCount (deref st convObj))
      | None => Some (Js.Number (Js.Int 0))
      end
  | None => None
  end.

(** [getAllMessages(remoteEthAddress)]: the room's [messages], [[]] without
    a room. *)
Definition getAllMessages (remoteEthAddress : string) (st : Messaging)
  : option (list Message.t) :=
  match generateRoomId (account_key st) remoteEthAddress with
  | Some roomId =>
      match convs st !! roomId with
      | Some convObj => Some (ConvObj.messages (deref st convObj))
      | None => Some []
      end
  | None => None
  end.

(** The key under which [getMyConvs] files a room: the first recipient that
    is not the engine's address when the id has two parts ([undefined], as a
    property name, when there is none), the id itself otherwise. *)
Definition conv_key (st : Messaging) (id : string) : string :=
  let recipients := getRecipients id in
  if (length recipients =? 2)%nat then
    match find_remote st recipients with
    | Some remoteEthAddress => remoteEthAddress
    | None => "undefined"
    end
  else id.

(** [getMyConvs()]: the property names of the object it returns (every value
    is the date of the call). *)
Definition getMyConvs (st : Messaging) : gset string :=
  set_map (conv_key st) (dom (convs st)).

(** [canReceiveMessages(remoteEthAddress)] *)
Definition canReceiveMessages (remoteEthAddress : string) (st : Messaging)
  : outcome bool :=
  match toChecksumAddress (Some remoteEthAddress) with
  | None => Throw "Error" st
  | Some address =>
      let '(entry, st) := getRegisteredKey address st in
      Return (bool_decide (is_Some entry)) st
  end.

End Views.

Section KeysEnvelope.
Context `{CryptoJS} `{Ecies} `{!World}.

(** The [keysContent] literal of [startConv]: the fresh key wrapped for the
    engine's own messaging key and for the key of the registry entry (with
    [ecEncrypt]'s fallback to the own key when the entry has none). *)
Definition keysContent (st : Messaging) (a : Account.t) (entry : RegistryEntry.t)
    (remoteEthAddress : string) : Content :=
  let encryptKey := cryptoRandomString in
  ContentKeys (account_key st)
    [ KeyEntry.mk (ecies_encrypt (Account.publicKey a) encryptKey)
        (Account.address a) (account_key st);
      KeyEntry.mk
        (ecies_encrypt
           (if Js.truthy_string (RegistryEntry.pub_key entry)
            then RegistryEntry.pub_key entry else Account.publicKey a)
           encryptKey)
        (RegistryEntry.address entry) remoteEthAddress ].

End KeysEnvelope.

(** Every message the engine holds in a room or has announced by a [msg]
    event satisfies the message schema. *)
Definition messages_valid (st : Messaging) : Prop :=
  Forall (λ c, Forall (λ m, validateMessage (Message.msg m) = true) (ConvObj.messages c))
    (objs st)
  ∧ Forall (λ m, validateMessage (Message.msg m) = true) (msg_events (emitted st)).

(** ** More concrete inputs *)

Module Scenario.
Import Toy.

(** Bob's messaging account; its private key opens what is wrapped for the
    public key of his registry entry. *)
Definition bob_account : Account.t := Account.mk "0xMB" "PB:" "PB:".

Definition bob_entry : RegistryEntry.t := RegistryEntry.mk "0xMB" "PB:".

(** Bob's engine, holding the room with Alice, still without keys. *)
Definition bob_engine : Messaging :=
  mkMessaging bob (Some bob_account) {[ room := 0%nat ]}
    [ConvObj.mk [] [] Js.Undefined Js.Undefined] ∅ false [] [] [].

(** Alice's engine holding the room with Bob and the key k1. *)
Definition established : Messaging :=
  with_room (ConvObj.mk ["k1"] [] (Js.Number (Js.Int 0)) (Js.Number (Js.Int 1))).

(** A server that knows nobody. *)
Definition empty_world : @World cryptojs :=
  @Build_World cryptojs (λ key, None) (λ request, true) 0 (Some "iv") "k1".

End Scenario.

(** ** A [keys] envelope that comes back while its POST is awaited *)

Module Race.
Import Toy Scenario.
#[local] Existing Instances cryptojs ecies jsoncodec web3 world.

(** Bob opened the room with a [keys] envelope whose entry for Alice is
    wrapped for a messaging key she does not have. *)
Definition opening : Entry.t :=
  Entry.mk
    (Some (ContentKeys bob [KeyEntry.mk "PB:k9" "0xMB" bob;
                            KeyEntry.mk "PX:k9" "0xMA" alice]))
    (Some room) (Js.Number (Js.Int 0)).

(** Alice's engine after the bulk load of that room. *)
Definition joined : Messaging := state_of (getRoom room [opening] fresh).

(** Alice calls [startConv(bob)]: the registry is asked, ... *)
Definition calling : Suspension := startConv_call bob Reader joined.

(** ... it answers with Bob's entry, ... *)
Definition looked_up : Suspension := resume (AwaitAccount bob (Some Reader)) calling.1.

(** ... and the [keys] envelope is posted at index 1. *)
Definition posting : Suspension :=
  resume (AwaitEntry bob (Some bob_entry) Reader) looked_up.1.

(** The live stream delivers the new entry of the room to Alice. *)
Definition echo : Entry.t :=
  Entry.mk (Some (keysContent fresh alice_account bob_entry bob)) (Some room)
    (Js.Number (Js.Int 1)).

Definition echoed : Messaging := onMessageUpdate echo posting.1.

(** Then the reply to the POST arrives. *)
Definition answered : Suspension :=
  resume (AwaitKeysPost 0%nat "k1" true Reader) echoed.

End Race.

(** ** A cipher under which a wrong key yields a tagged text

    Decryption under a key other than the key of the encryption gives
    some other bytes.  Nothing keeps these from being a text that ends in
    its own six-character tag; under this cipher they are one. *)

Module Collision.
Import Toy.

Definition cryptojs : CryptoJS := {|
  WordArray := option string;
  AES_encrypt m k iv := k +:+ m;
  AES_decrypt c k iv :=
    match strip k c with
    | Some m => Some m
    | None => Some "not jsonnot js"
    end;
  enc_Utf8 w := w;
  Base64_parse s := Some s;
  Base64_stringify w := default "" w;
  SHA1 s := Some (String.substring 0 28 (s +:+ "============================"));
|}.

Definition world : @World cryptojs :=
  @Build_World cryptojs
    (λ key, if String.eqb key bob then Some (RegistryEntry.mk "0xMB" "PB:") else None)
    (λ request, true)
    1700000000000
    (Some "iv")
    "k1".

End Collision.

(** * Properties *)

(** ** Strings *)

Lemma length_append (s t : string) :
  String.length (s +:+ t) = (String.length s + String.length t)%nat.
Proof. induction s as [|c s IH]; simpl; [done | by rewrite IH]. Qed.

Lemma substring_all (s : string) : String.substring 0 (String.length s) s = s.
Proof. induction s as [|c s IH]; simpl; [done | by rewrite IH]. Qed.

Lemma substring_append_l (p t : string) :
  String.substring 0 (String.length p) (p +:+ t) = p.
Proof.
  induction p as [|c p IH]; simpl.
  - by destruct t.
  - by rewrite IH.
Qed.

Lemma substring_append_r (p t : string) (m : nat) :
  String.substring (String.length p) m (p +:+ t) = String.substring 0 m t.
Proof. induction p as [|c p IH]; simpl; done. Qed.

Lemma substring_split (s : string) (n : nat) :
  (n ≤ String.length s)%nat →
  String.substring 0 n s +:+ String.substring n (String.length s - n) s = s.
Proof.
  revert n. induction s as [|c s IH]; intros [|n] Hn; simpl in *; try lia; try done.
  - by rewrite substring_all.
  - change (String c (String.substring 0 n s +:+
                      String.substring n (String.length s - n) s) = String c s).
    f_equal. apply IH. lia.
Qed.

Lemma length_substring (s : string) (n m : nat) :
  (n + m ≤ String.length s)%nat → String.length (String.substring n m s) = m.
Proof.
  revert n m. induction s as [|c s IH]; intros [|n] [|m] Hn; simpl in *; try lia; try done.
  - rewrite IH; [done | lia].
  - apply (IH n 0%nat). lia.
  - apply (IH n (S m)). lia.
Qed.

(** [outText.slice(0, -6)] and [outText.substr(-6)] cut a text longer than
    six characters into a prefix and its last six characters. *)
Lemma slice_substr_split (outText : string) :
  6 < Z.of_nat (String.length outText) →
  Js.slice outText 0 (-6) +:+ Js.substr_from outText (-6) = outText
  ∧ String.length (Js.substr_from outText (-6)) = 6%nat
  ∧ Js.slice outText 0 (-6) ≠ "".
Proof.
  intros Hlen. unfold Js.slice, Js.substr_from, Js.rel_index. simpl.
  set (len := String.length outText) in *.
  replace (Z.max (Z.of_nat len + -6) 0) with (Z.of_nat (len - 6)) by lia.
  replace (Z.min 0 (Z.of_nat len)) with 0 by lia.
  replace (Z.max (Z.of_nat (len - 6) - 0) 0) with (Z.of_nat (len - 6)) by lia.
  replace (Z.of_nat len - Z.of_nat (len - 6)) with (Z.of_nat 6) by lia.
  rewrite !Nat2Z.id. change (Z.to_nat 0) with 0%nat.
  split; [|split].
  - pose proof (substring_split outText (len - 6) ltac:(lia)) as Hs.
    replace (String.length outText - (len - 6))%nat with 6%nat in Hs
      by (unfold len; lia).
    exact Hs.
  - apply length_substring. lia.
  - intros Hnil.
    assert (String.length (String.substring 0 (len - 6) outText) = (len - 6)%nat) as Hl
      by (apply length_substring; lia).
    rewrite Hnil in Hl. simpl in Hl. lia.
Qed.

Lemma slice_substr_append (p tag : string) :
  String.length tag = 6%nat →
  Js.slice (p +:+ tag) 0 (-6) = p ∧ Js.substr_from (p +:+ tag) (-6) = tag.
Proof.
  intros Htag. unfold Js.slice, Js.substr_from, Js.rel_index. simpl.
  rewrite length_append, Htag.
  set (n := String.length p).
  replace (Z.max (Z.of_nat (n + 6) + -6) 0) with (Z.of_nat n) by lia.
  replace (Z.min 0 (Z.of_nat (n + 6))) with 0 by lia.
  replace (Z.max (Z.of_nat n - 0) 0) with (Z.of_nat n) by lia.
  replace (Z.of_nat (n + 6) - Z.of_nat n) with (Z.of_nat 6) by lia.
  rewrite !Nat2Z.id. change (Z.to_nat 0) with 0%nat.
  split.
  - apply substring_append_l.
  - unfold n. rewrite substring_append_r, <- Htag. apply substring_all.
Qed.

Lemma truthy_string_length (s : string) :
  Js.truthy_string s = true ↔ (0 < String.length s)%nat.
Proof. destruct s; simpl; split; intros; (done || lia). Qed.

Section CodecProperties.
Context `{CryptoJS} `{Ecies} `{JSONCodec}.

(** C4.  [decryptEmsg] returns a text [p] exactly when the AES output reads
    as a UTF-8 text longer than six characters that is [p] followed by the
    six-character tag of [p]; in every other case (the output is not UTF-8,
    it has at most six characters, its last six characters are not the tag
    of what precedes them) it returns [undefined]. *)
Theorem decryptEmsg_accepts_iff_tagged (ivStr msg key : string) :
  (∀ p, decryptEmsg ivStr msg key = Some p ↔
        ∃ tag, enc_Utf8 (AES_decrypt msg key (Base64_parse ivStr)) = Some (p +:+ tag)
               ∧ String.length tag = 6%nat
               ∧ p ≠ ""
               ∧ tag = sha_tag p)
  ∧ (decryptEmsg ivStr msg key = None ↔
       enc_Utf8 (AES_decrypt msg key (Base64_parse ivStr)) = None
       ∨ ∃ outText, enc_Utf8 (AES_decrypt msg key (Base64_parse ivStr)) = Some outText
           ∧ (Z.of_nat (String.length outText) ≤ 6
              ∨ Js.substr_from outText (-6) ≠ sha_tag (Js.slice outText 0 (-6)))).
Proof.
  unfold decryptEmsg, sha_tag.
  destruct (enc_Utf8 (AES_decrypt msg key (Base64_parse ivStr))) as [outText|].
  2:{ split; [intros p; split; [done | by intros (? & ? & _)] | split; auto]. }
  destruct (Z.ltb_spec 6 (Z.of_nat (String.length outText))) as [Hlen|Hlen].
  - assert (Js.truthy_string outText = true) as ->
      by (apply truthy_string_length; lia).
    simpl andb. cbv iota.
    destruct (slice_substr_split outText Hlen) as (Hsplit & Htag & Hne).
    destruct (String.eqb_spec (Js.substr_from outText (-6))
                (Js.substr (Base64_stringify (SHA1 (Js.slice outText 0 (-6)))) 0 6))
      as [Heq|Hneq].
    + split.
      * intros p; split.
        -- intros [= <-]. exists (Js.substr_from outText (-6)).
           by rewrite Hsplit.
        -- intros (tag & [= Hout] & Hlt & _ & _).
           destruct (slice_substr_append p tag Hlt) as [Hp _].
           by rewrite Hout, Hp.
      * split; [done|]. intros [? | (out & [= <-] & [? | ?])]; (done || lia).
    + split.
      * intros p; split; [done|].
        intros (tag & [= Hout] & Hlt & _ & Hsha).
        destruct (slice_substr_append p tag Hlt) as [Hp Ht].
        rewrite Hout, Hp, Ht in Hneq. done.
      * split; [|done]. intros _. right. exists outText. auto.
  - rewrite andb_false_r. split.
    + intros p; split; [done|].
      intros (tag & [= Hout] & Hlt & Hp & _). subst outText.
      rewrite length_append in Hlen. destruct p; [done | simpl in Hlen; lia].
    + split; [|done]. intros _. right. exists outText. auto.
Qed.

Lemma length_sha_tag `{!CryptoJSLaws} (text : string) :
  String.length (sha_tag text) = 6%nat.
Proof.
  unfold sha_tag, Js.substr, Js.rel_index. simpl.
  rewrite SHA1_base64_length. simpl. by apply length_substring; rewrite SHA1_base64_length; simpl; lia.
Qed.

(** What [createEncrypted] builds is accepted under the same key. *)
Lemma decryptEmsg_encrypt `{!CryptoJSLaws} (text key : string) (iv : WordArray) :
  text ≠ "" →
  decryptEmsg (Base64_stringify iv)
    (AES_encrypt (text +:+ sha_tag text) key iv) key = Some text.
Proof.
  intros Hne. unfold decryptEmsg. rewrite AES_decrypt_encrypt.
  pose proof (length_sha_tag text) as Htag.
  destruct (slice_substr_append text (sha_tag text) Htag) as [-> ->].
  assert (Js.truthy_string (text +:+ sha_tag text) = true) as ->
    by (by destruct text).
  assert ((6 <? Z.of_nat (String.length (text +:+ sha_tag text))) = true) as ->.
  { apply Z.ltb_lt. rewrite length_append, Htag. destruct text; [done | simpl; lia]. }
  fold (sha_tag text). by rewrite String.eqb_refl.
Qed.

Lemma decryptMessage_keys_skip (i emsg : string) (pre keys : list string) :
  Forall (λ k, decryptEmsg i emsg k = None) pre →
  decryptMessage_keys i emsg (pre ++ keys) = decryptMessage_keys i emsg keys.
Proof. induction 1 as [|k pre Hk _ IH]; simpl; [done | by rewrite Hk]. Qed.

End CodecProperties.

(** ** The object store *)

Lemma set_keys_same (c : ConvObj.t) : ConvObj.set_keys (ConvObj.keys c) c = c.
Proof. by destruct c. Qed.

Lemma mutate_ext (l : loc) (f g : ConvObj.t → ConvObj.t) (st : Messaging) :
  (∀ c, objs st !! l = Some c → f c = g c) → mutate l f st = mutate l g st.
Proof.
  intros Hfg. unfold mutate, set_objs. f_equal.
  apply list_eq. intros i. destruct (decide (i = l)) as [->|Hne].
  - rewrite !list_lookup_alter_eq. destruct (objs st !! l) eqn:E; simpl; [|done].
    f_equal. by apply Hfg.
  - by rewrite !list_lookup_alter_ne.
Qed.

Lemma mutate_id (l : loc) (f : ConvObj.t → ConvObj.t) (st : Messaging) :
  (∀ c, objs st !! l = Some c → f c = c) → mutate l f st = st.
Proof.
  intros Hf. rewrite (mutate_ext l f id st Hf).
  unfold mutate, set_objs. rewrite list_alter_id by done. by destruct st.
Qed.

Lemma deref_mutate (l : loc) (f : ConvObj.t → ConvObj.t) (st : Messaging) :
  is_Some (objs st !! l) → deref (mutate l f st) l = f (deref st l).
Proof.
  intros [c Hc]. unfold deref, mutate, set_objs. simpl.
  by rewrite list_lookup_alter_eq, Hc.
Qed.

Lemma deref_mutate_ne (l l' : loc) (f : ConvObj.t → ConvObj.t) (st : Messaging) :
  l ≠ l' → deref (mutate l f st) l' = deref st l'.
Proof.
  intros Hne. unfold deref, mutate, set_objs. simpl.
  by rewrite list_lookup_alter_ne.
Qed.

Lemma lookup_mutate (l l' : loc) (f : ConvObj.t → ConvObj.t) (st : Messaging) :
  objs (mutate l f st) !! l' =
    if decide (l = l') then f <$> objs st !! l' else objs st !! l'.
Proof.
  unfold mutate, set_objs. simpl. case_decide as Hl.
  - subst. apply list_lookup_alter_eq.
  - by apply list_lookup_alter_ne.
Qed.

(** ** [processKeys] *)

Section ProcessKeys.
Context `{CryptoJS} `{Ecies} `{JSONCodec}.

Lemma includes_elem_of (key : string) (keys : list string) :
  includes key keys = true ↔ key ∈ keys.
Proof.
  unfold includes. rewrite existsb_exists. split.
  - intros (k & Hin & Heq). apply String.eqb_eq in Heq. subst.
    by apply list_elem_of_In.
  - intros Hin. exists key. split; [by apply list_elem_of_In | apply String.eqb_refl].
Qed.

(** The loop body adds the recovered key unless it is already there. *)
Lemma processKey_recovered (st : Messaging) (keys : list string) (v : KeyEntry.t) :
  processKey st keys v =
    match recovered st v with
    | Some key => if decide (key ∈ keys) then keys else keys ++ [key]
    | None => keys
    end.
Proof.
  unfold processKey, recovered.
  destruct (String.eqb_spec (KeyEntry.address v) (account_key st)) as [Heq|Hne].
  2:{ by rewrite decide_False. }
  rewrite decide_True by done.
  destruct (ecDecrypt st (KeyEntry.ekey v)) as [[key|]|]; simpl; try done.
  destruct (Js.truthy_string key); simpl; [|done].
  destruct (includes key keys) eqn:Hin; simpl.
  - rewrite decide_True; [done|]. by apply includes_elem_of.
  - rewrite decide_False; [done|]. intros Hin'.
    apply includes_elem_of in Hin'. congruence.
Qed.

Lemma processKey_other (st : Messaging) (keys : list string) (v : KeyEntry.t) :
  KeyEntry.address v ≠ account_key st → processKey st keys v = keys.
Proof.
  intros Hne. rewrite processKey_recovered. unfold recovered.
  by rewrite decide_False.
Qed.

Lemma foldl_processKey_filter (st : Messaging) (entries : list KeyEntry.t) :
  ∀ keys,
    foldl (processKey st) keys entries =
    foldl (processKey st) keys
      (filter (λ v, KeyEntry.address v = account_key st) entries).
Proof.
  induction entries as [|v entries IH]; intros keys; [done|].
  rewrite filter_cons. case_decide as Hv; simpl.
  - apply IH.
  - rewrite processKey_other by done. apply IH.
Qed.

Lemma foldl_processKey_others (st : Messaging) (entries : list KeyEntry.t) :
  Forall (λ v, KeyEntry.address v ≠ account_key st) entries →
  ∀ keys, foldl (processKey st) keys entries = keys.
Proof.
  induction 1 as [|v entries Hv _ IH]; intros keys; simpl; [done|].
  rewrite processKey_other by done. apply IH.
Qed.

Lemma processKey_NoDup (st : Messaging) (keys : list string) (v : KeyEntry.t) :
  NoDup keys → NoDup (processKey st keys v).
Proof.
  intros Hnd. rewrite processKey_recovered.
  destruct (recovered st v) as [key|]; [|done].
  case_decide as Hin; [done|].
  apply NoDup_app. split_and!; [done | | apply NoDup_singleton].
  intros k Hk Hk'. by apply list_elem_of_singleton in Hk' as ->.
Qed.

Lemma foldl_processKey_NoDup (st : Messaging) (entries : list KeyEntry.t) :
  ∀ keys, NoDup keys → NoDup (foldl (processKey st) keys entries).
Proof.
  induction entries as [|v entries IH]; intros keys Hnd; simpl; [done|].
  by apply IH, processKey_NoDup.
Qed.

(** What the loop leaves in the list: what was there and what the entries
    yield. *)
Lemma elem_of_foldl_processKey (st : Messaging) (entries : list KeyEntry.t) :
  ∀ keys key,
    key ∈ foldl (processKey st) keys entries ↔
    key ∈ keys ∨ ∃ v, v ∈ entries ∧ recovered st v = Some key.
Proof.
  induction entries as [|v entries IH]; intros keys key; simpl.
  - split; [auto|]. intros [?|(v & Hv & _)]; [done|]. by apply not_elem_of_nil in Hv.
  - rewrite IH, processKey_recovered. split.
    + intros [Hin|(w & Hw & Hrec)].
      * destruct (recovered st v) as [k|] eqn:Hrec; [|auto].
        case_decide; [auto|].
        apply elem_of_app in Hin as [?|Hk]; [auto|].
        apply list_elem_of_singleton in Hk as ->.
        right. exists v. split; [left | done].
      * right. exists w. split; [by right | done].
    + intros [Hin|(w & Hw & Hrec)].
      * left. destruct (recovered st v) as [k|]; [|done].
        case_decide; [done|]. apply elem_of_app. auto.
      * apply elem_of_cons in Hw as [->|Hw].
        -- left. rewrite Hrec. case_decide; [done|].
           apply elem_of_app. right. by apply list_elem_of_singleton.
        -- right. eauto.
Qed.

(** A second pass over entries whose keys are all present changes nothing. *)
Lemma foldl_processKey_present (st : Messaging) (entries : list KeyEntry.t) :
  ∀ keys,
    (∀ v key, v ∈ entries → recovered st v = Some key → key ∈ keys) →
    foldl (processKey st) keys entries = keys.
Proof.
  induction entries as [|v entries IH]; intros keys Hall; simpl; [done|].
  rewrite processKey_recovered.
  destruct (recovered st v) as [key|] eqn:Hrec.
  - rewrite decide_True by (apply (Hall v); [left | done]).
    apply IH. intros w k Hw. apply Hall. by right.
  - apply IH. intros w k Hw. apply Hall. by right.
Qed.

Lemma foldl_processKey_idem (st : Messaging) (entries : list KeyEntry.t)
    (keys : list string) :
  foldl (processKey st) (foldl (processKey st) keys entries) entries =
  foldl (processKey st) keys entries.
Proof.
  apply foldl_processKey_present. intros v key Hv Hrec.
  apply elem_of_foldl_processKey. right. eauto.
Qed.

Lemma processKey_account (st st' : Messaging) :
  account_key st' = account_key st → account st' = account st →
  processKey st' = processKey st.
Proof.
  intros Hk Ha. unfold processKey, ecDecrypt. by rewrite Hk, Ha.
Qed.

Lemma deref_processKeys (entries : list KeyEntry.t) (convObj : loc) (st : Messaging) :
  is_Some (objs st !! convObj) →
  ConvObj.keys (deref (processKeys entries convObj st) convObj) =
  foldl (processKey st) (ConvObj.keys (deref st convObj)) entries.
Proof. intros Hc. unfold processKeys. by rewrite deref_mutate. Qed.

Lemma mutate_mutate (l : loc) (f g : ConvObj.t → ConvObj.t) (st : Messaging) :
  mutate l g (mutate l f st) = mutate l (g ∘ f) st.
Proof.
  unfold mutate, set_objs. simpl. f_equal. apply list_alter_alter_eq.
Qed.

Lemma processKeys_idem (entries : list KeyEntry.t) (convObj : loc) (st : Messaging) :
  processKeys entries convObj (processKeys entries convObj st) =
  processKeys entries convObj st.
Proof.
  unfold processKeys at 1.
  rewrite (processKey_account st (processKeys entries convObj st)) by done.
  unfold processKeys. rewrite mutate_mutate. apply mutate_ext.
  intros c _. unfold compose. destruct c as [ks ms li mc]. simpl.
  unfold ConvObj.set_keys. simpl. f_equal. apply foldl_processKey_idem.
Qed.

Lemma processKeys_others (entries : list KeyEntry.t) (convObj : loc) (st : Messaging) :
  Forall (λ v, KeyEntry.address v ≠ account_key st) entries →
  processKeys entries convObj st = st.
Proof.
  intros Hothers. unfold processKeys. apply mutate_id. intros c _.
  rewrite foldl_processKey_others by done. apply set_keys_same.
Qed.

(** C5.  [processKeys] acts as if the entries addressed to other
    participants were not in the envelope; every key it adds was unwrapped
    from an entry whose [address] is the engine's wallet address; and a
    [keys] envelope with entries for other participants only leaves the
    engine, the room's key list included, as it was. *)
Theorem processKeys_ignores_other_addresses
    (st : Messaging) (address : string) (entries : list KeyEntry.t) (convObj : loc) :
  processKeys entries convObj st =
    processKeys (filter (λ v, KeyEntry.address v = account_key st) entries) convObj st
  ∧ (∀ key, key ∈ ConvObj.keys (deref (processKeys entries convObj st) convObj) →
       key ∈ ConvObj.keys (deref st convObj)
       ∨ ∃ v, v ∈ entries ∧ KeyEntry.address v = account_key st
              ∧ ecDecrypt st (KeyEntry.ekey v) = Some (Some key))
  ∧ (Forall (λ v, KeyEntry.address v ≠ account_key st) entries →
     ∀ onMessage onEncrypted,
       processContent (ContentKeys address entries) convObj onMessage onEncrypted st = st
       ∧ ConvObj.keys (deref (processKeys entries convObj st) convObj) =
         ConvObj.keys (deref st convObj)).
Proof.
  split_and!.
  - unfold processKeys. apply mutate_ext. intros c _.
    by rewrite foldl_processKey_filter.
  - intros key Hkey. destruct (objs st !! convObj) as [c|] eqn:Hc.
    + rewrite deref_processKeys in Hkey by eauto.
      apply elem_of_foldl_processKey in Hkey as [?|(v & Hv & Hrec)]; [by left|].
      right. exists v. unfold recovered in Hrec.
      case_decide as Haddr; [|done].
      destruct (ecDecrypt st (KeyEntry.ekey v)) as [[k|]|]; try done.
      destruct (Js.truthy_string k); [|done]. by injection Hrec as ->.
    + left. revert Hkey. unfold deref, processKeys.
      rewrite lookup_mutate, decide_True, Hc by done. done.
  - intros Hothers onMessage onEncrypted. simpl.
    by rewrite processKeys_others.
Qed.

Lemma keys_deduplicated_mutate (l : loc) (f : ConvObj.t → ConvObj.t) (st : Messaging) :
  keys_deduplicated st →
  (∀ c, objs st !! l = Some c → NoDup (ConvObj.keys c) → NoDup (ConvObj.keys (f c))) →
  keys_deduplicated (mutate l f st).
Proof. intros Hinv Hf. unfold keys_deduplicated, mutate. simpl. by apply Forall_alter. Qed.

Lemma keys_deduplicated_alloc (c : ConvObj.t) (st : Messaging) :
  keys_deduplicated st → NoDup (ConvObj.keys c) → keys_deduplicated (alloc c st).2.
Proof.
  intros Hinv Hc. unfold keys_deduplicated, alloc. simpl.
  apply Forall_app. split; [done|]. by constructor.
Qed.

Lemma keys_deduplicated_processKeys (entries : list KeyEntry.t) (convObj : loc)
    (st : Messaging) :
  keys_deduplicated st → keys_deduplicated (processKeys entries convObj st).
Proof.
  intros Hinv. apply keys_deduplicated_mutate; [done|].
  intros c _ Hc. simpl. by apply foldl_processKey_NoDup.
Qed.

Lemma keys_deduplicated_processContent (content : Content) (roomId : string)
    (entry : Entry.t) (convObj : loc) (st : Messaging) :
  keys_deduplicated st →
  keys_deduplicated
    (processContent content convObj (onMessage_cb roomId entry convObj)
       (onEncrypted_cb roomId entry) st).
Proof.
  intros Hinv. destruct content as [a entries|emsg i a to|ty]; simpl; [| |done].
  - by apply keys_deduplicated_processKeys.
  - destruct (decryptMessage i emsg (deref st convObj)) as [obj|e].
    + destruct (json_truthy obj); [|done].
      unfold onMessage_cb.
      by apply (keys_deduplicated_mutate convObj (ConvObj.push_message _) st).
    + destruct (String.eqb e COULD_NOT_DECRYPT); [done|].
      by destruct (String.eqb e INVALID_MESSAGE_OBJECT).
Qed.

Lemma keys_deduplicated_advance (entry : Entry.t) (convObj : loc) (st : Messaging) :
  keys_deduplicated st → keys_deduplicated (advance entry convObj st).
Proof. intros Hinv. by apply keys_deduplicated_mutate. Qed.

Lemma keys_deduplicated_forEach (roomId : string) (convObj : loc)
    (messages : list Entry.t) :
  ∀ st, keys_deduplicated st →
        keys_deduplicated (state_of (getRoom_forEach roomId convObj messages st)).
Proof.
  induction messages as [|entry rest IH]; intros st Hinv; simpl; [done|].
  destruct (Entry.content entry) as [content|]; [|done].
  by apply IH, keys_deduplicated_advance, keys_deduplicated_processContent.
Qed.

Lemma keys_deduplicated_getRoom_begin (roomId : string) (st : Messaging) :
  keys_deduplicated st → keys_deduplicated (getRoom_begin roomId st).2.
Proof.
  intros Hinv. unfold getRoom_begin. simpl.
  apply (keys_deduplicated_alloc (ConvObj.mk [] [] Js.Undefined Js.Undefined) st);
    [done | constructor].
Qed.

Lemma keys_deduplicated_onMessageUpdate (entry : Entry.t) (st : Messaging) :
  keys_deduplicated st → keys_deduplicated (onMessageUpdate entry st).
Proof.
  intros Hinv. unfold onMessageUpdate.
  destruct (Entry.content entry) as [content|]; [|done].
  destruct (Entry.conversationId entry) as [conversationId|]; [|done].
  destruct (Js.truthy_string conversationId); [|done].
  destruct (convs st !! conversationId) as [convObj|].
  - destruct (Js.loose_neqb _ _).
    + by apply keys_deduplicated_advance, keys_deduplicated_processContent.
    + by apply keys_deduplicated_getRoom_begin.
  - by apply keys_deduplicated_getRoom_begin.
Qed.

End ProcessKeys.

(** ** The log ingestor *)

Section Ingestor.
Context `{CryptoJS} `{Ecies} `{JSONCodec}.

(** [undefined + 1] is NaN, and nothing is loosely equal to NaN. *)
Lemma loose_neqb_undefined_plus_1 (v : Js.value) :
  Js.loose_neqb v (Js.add Js.Undefined (Js.Number (Js.Int 1))) = true.
Proof. by destruct v as [|[| |z]]. Qed.

(** For a room the engine knows, the test of [onMessageUpdate] reads
    [convObj.conversationIndex], which no conversation object has: whatever
    the index of the entry, the first branch runs. *)
Lemma onMessageUpdate_known (entry : Entry.t) (content : Content)
    (conversationId : string) (convObj : loc) (st : Messaging) :
  Entry.content entry = Some content →
  Entry.conversationId entry = Some conversationId →
  Js.truthy_string conversationId = true →
  convs st !! conversationId = Some convObj →
  onMessageUpdate entry st =
    advance entry convObj
      (processContent content convObj
         (onMessage_cb conversationId entry convObj)
         (onEncrypted_cb conversationId entry) st).
Proof.
  intros Hc Hid Ht Hroom. unfold onMessageUpdate.
  rewrite Hc, Hid, Ht, Hroom. unfold ConvObj.conversationIndex.
  by rewrite loose_neqb_undefined_plus_1.
Qed.

Lemma processContent_frame (content : Content) (roomId : string) (entry : Entry.t)
    (convObj : loc) (st : Messaging) :
  let st' := processContent content convObj (onMessage_cb roomId entry convObj)
               (onEncrypted_cb roomId entry) st in
  convs st' = convs st ∧ fetching st' = fetching st ∧ posted st' = posted st
  ∧ length (objs st') = length (objs st).
Proof.
  destruct content as [a entries|emsg i a to|ty]; simpl; [| |done].
  - by rewrite length_alter.
  - destruct (decryptMessage i emsg (deref st convObj)) as [obj|e].
    + destruct (json_truthy obj); [|done]. simpl. by rewrite length_alter.
    + destruct (String.eqb e COULD_NOT_DECRYPT); [done|].
      by destruct (String.eqb e INVALID_MESSAGE_OBJECT).
Qed.

(** A live entry for a known room never starts a bulk load and never
    replaces the room's object. *)
Lemma onMessageUpdate_known_no_reload (entry : Entry.t) (content : Content)
    (conversationId : string) (convObj : loc) (st : Messaging) :
  Entry.content entry = Some content →
  Entry.conversationId entry = Some conversationId →
  Js.truthy_string conversationId = true →
  convs st !! conversationId = Some convObj →
  fetching (onMessageUpdate entry st) = fetching st
  ∧ convs (onMessageUpdate entry st) = convs st.
Proof.
  intros Hc Hid Ht Hroom.
  rewrite (onMessageUpdate_known entry content conversationId convObj) by done.
  destruct (processContent_frame content conversationId entry convObj st)
    as (Hconvs & Hfetching & _).
  by simpl in *.
Qed.

(** After every ingested entry both counters are those of that entry. *)
Lemma counters_advance (entry : Entry.t) (convObj : loc) (st : Messaging) :
  is_Some (objs st !! convObj) →
  ConvObj.lastConversationIndex (deref (advance entry convObj st) convObj)
    = Entry.conversationIndex entry
  ∧ ConvObj.messageCount (deref (advance entry convObj st) convObj)
    = Js.add (Entry.conversationIndex entry) (Js.Number (Js.Int 1)).
Proof. intros Hc. unfold advance. by rewrite deref_mutate. Qed.

(** C1.  Alice's engine knows the room with Bob and has ingested index 0.
    The live entry with index 5 is a gap (5 is not 0 + 1).  The engine does
    not discard it and does not reload the room: it processes the content
    (the [emsg] event for index 5 is emitted) and sets the counters to 5
    and 6. *)
Theorem onMessageUpdate_gap_is_ingested :
  let st := Toy.with_room
              (ConvObj.mk [] [] (Js.Number (Js.Int 0)) (Js.Number (Js.Int 1))) in
  let E := Entry.mk (Some (ContentMsg "c2VjcmV0" "aXY=" Toy.bob None))
             (Some Toy.room) (Js.Number (Js.Int 5)) in
  let st' := onMessageUpdate E st in
  Js.loose_eqb (Entry.conversationIndex E)
    (Js.add (ConvObj.lastConversationIndex (deref st 0%nat)) (Js.Number (Js.Int 1)))
    = false
  ∧ fetching st' = []
  ∧ convs st' !! Toy.room = Some 0%nat
  ∧ emitted st' =
      [EventEmsg (Message.mk (JStr "c2VjcmV0") Toy.room (Js.Number (Js.Int 5)) Toy.bob
                    (Toy.room +:+ ".5"))]
  ∧ deref st' 0%nat = ConvObj.mk [] [] (Js.Number (Js.Int 5)) (Js.Number (Js.Int 6)).
Proof.
  intros st E st'. subst st'.
  rewrite (onMessageUpdate_known E (ContentMsg "c2VjcmV0" "aXY=" Toy.bob None)
             Toy.room 0%nat st) by done.
  by split_and!.
Qed.

(** C2.  The room has ingested up to index 5 ([messageCount] is 6).  The
    live entry with index 2 is accepted: afterwards [lastConversationIndex]
    is 2 and [messageCount] is 3, below the 6 that the highest ingested
    index calls for. *)
Theorem onMessageUpdate_counters_move_backwards :
  let st := Toy.with_room
              (ConvObj.mk [] [] (Js.Number (Js.Int 5)) (Js.Number (Js.Int 6))) in
  let E := Entry.mk (Some (ContentKeys Toy.bob [])) (Some Toy.room)
             (Js.Number (Js.Int 2)) in
  let st' := onMessageUpdate E st in
  ConvObj.lastConversationIndex (deref st 0%nat) = Js.Number (Js.Int 5)
  ∧ ConvObj.messageCount (deref st 0%nat) = Js.Number (Js.Int 6)
  ∧ fetching st' = []
  ∧ ConvObj.lastConversationIndex (deref st' 0%nat) = Js.Number (Js.Int 2)
  ∧ ConvObj.messageCount (deref st' 0%nat) = Js.Number (Js.Int 3).
Proof.
  intros st E st'. subst st'.
  rewrite (onMessageUpdate_known E (ContentKeys Toy.bob []) Toy.room 0%nat st) by done.
  by split_and!.
Qed.

Lemma getRoom_forEach_objs_length (roomId : string) (convObj : loc)
    (messages : list Entry.t) :
  ∀ st, length (objs (state_of (getRoom_forEach roomId convObj messages st)))
        = length (objs st).
Proof.
  induction messages as [|entry rest IH]; intros st; simpl; [done|].
  destruct (Entry.content entry) as [content|]; [|done].
  rewrite IH. unfold advance. simpl. rewrite length_alter.
  by destruct (processContent_frame content roomId entry convObj st) as (_ & _ & _ & ->).
Qed.

(** A bulk load that runs to its end leaves the counters of the last entry
    of the reply: its index, and its index plus one. *)
Lemma getRoom_forEach_counters (roomId : string) (convObj : loc)
    (messages : list Entry.t) (last_entry : Entry.t) (st st' : Messaging) :
  is_Some (objs st !! convObj) →
  getRoom_forEach roomId convObj (messages ++ [last_entry]) st = Return () st' →
  ConvObj.lastConversationIndex (deref st' convObj) = Entry.conversationIndex last_entry
  ∧ ConvObj.messageCount (deref st' convObj)
    = Js.add (Entry.conversationIndex last_entry) (Js.Number (Js.Int 1)).
Proof.
  revert st. induction messages as [|entry rest IH]; intros st Hc; simpl.
  - destruct (Entry.content last_entry) as [content|]; [|done].
    intros [= <-]. apply counters_advance.
    apply lookup_lt_is_Some.
    destruct (processContent_frame content roomId last_entry convObj st)
      as (_ & _ & _ & Hlen).
    simpl in Hlen. rewrite Hlen. by apply lookup_lt_is_Some.
  - destruct (Entry.content entry) as [content|]; [|done].
    apply IH. apply lookup_lt_is_Some. unfold advance. simpl.
    rewrite length_alter.
    destruct (processContent_frame content roomId entry convObj st)
      as (_ & _ & _ & Hlen).
    simpl in Hlen. rewrite Hlen. by apply lookup_lt_is_Some.
Qed.

Lemma error_constants_differ : COULD_NOT_DECRYPT ≠ INVALID_MESSAGE_OBJECT.
Proof. done. Qed.

(** When [decryptMessage] answers [INVALID_MESSAGE_OBJECT]: the first key
    whose tag check passes yields a text that is not JSON or not a
    message. *)
Lemma decryptMessage_invalid_iff (i emsg : string) (convObj : ConvObj.t) :
  decryptMessage i emsg convObj = DecryptedError INVALID_MESSAGE_OBJECT ↔
  ∃ pre key post buffer,
    ConvObj.keys convObj = pre ++ key :: post
    ∧ Forall (λ k, decryptEmsg i emsg k = None) pre
    ∧ decryptEmsg i emsg key = Some buffer
    ∧ (JSON_parse buffer = None
       ∨ ∃ obj, JSON_parse buffer = Some obj ∧ validateMessage obj = false).
Proof.
  unfold decryptMessage. induction (ConvObj.keys convObj) as [|k ks IH]; simpl.
  - split; [done|]. intros (pre & ? & ? & ? & Hk & _). by destruct pre.
  - destruct (decryptEmsg i emsg k) as [buffer|] eqn:Hd.
    + split.
      * intros Hinv. exists [], k, ks, buffer. split_and!; [done..|].
        destruct (JSON_parse buffer) as [obj|]; [|by left].
        right. exists obj. split; [done|].
        by destruct (validateMessage obj).
      * intros (pre & key & post & buf & Hk & Hpre & Hkey & Hbad).
        destruct pre as [|k' pre]; simpl in Hk; injection Hk as -> ->.
        -- rewrite Hd in Hkey. injection Hkey as ->.
           destruct Hbad as [-> | (obj & -> & ->)]; done.
        -- apply Forall_cons in Hpre as [Hk' _]. congruence.
    + rewrite IH. split.
      * intros (pre & key & post & buf & -> & Hpre & Hkey & Hbad).
        exists (k :: pre), key, post, buf. split_and!; try done.
        by constructor.
      * intros (pre & key & post & buf & Hk & Hpre & Hkey & Hbad).
        destruct pre as [|k' pre]; simpl in Hk; injection Hk as -> ->.
        -- congruence.
        -- apply Forall_cons in Hpre as [_ Hpre].
           exists pre, key, post, buf. done.
Qed.

(** C8.  A [msg] envelope for which [decryptMessage] answers
    [INVALID_MESSAGE_OBJECT] makes [processContent] call neither callback,
    whatever the callbacks are: the engine is left as it was.  In both
    ingestion paths no event is emitted for such an entry. *)
Theorem processContent_invalid_message_silent
    (emsg i address : string) (to : option string) (convObj : loc) (st : Messaging) :
  decryptMessage i emsg (deref st convObj) = DecryptedError INVALID_MESSAGE_OBJECT →
  (∀ onMessage onEncrypted,
     processContent (ContentMsg emsg i address to) convObj onMessage onEncrypted st = st)
  ∧ (∀ entry conversationId,
       Entry.content entry = Some (ContentMsg emsg i address to) →
       Entry.conversationId entry = Some conversationId →
       Js.truthy_string conversationId = true →
       convs st !! conversationId = Some convObj →
       emitted (onMessageUpdate entry st) = emitted st)
  ∧ (∀ entry roomId,
       Entry.content entry = Some (ContentMsg emsg i address to) →
       emitted (state_of (getRoom_forEach roomId convObj [entry] st)) = emitted st).
Proof.
  intros Hinvalid.
  assert (∀ onMessage onEncrypted,
            processContent (ContentMsg emsg i address to) convObj
              onMessage onEncrypted st = st) as Hsilent.
  { intros onMessage onEncrypted. simpl. by rewrite Hinvalid. }
  split_and!; [done| |].
  - intros entry conversationId Hc Hid Ht Hroom.
    rewrite (onMessageUpdate_known entry _ conversationId convObj) by done.
    by rewrite Hsilent.
  - intros entry roomId Hc. cbn [getRoom_forEach]. rewrite Hc, Hsilent. done.
Qed.

End Ingestor.

(** ** The conversation API *)

Lemma get_prop_set_prop (k : string) (v : json) (props : list (string * json)) :
  get_prop k (set_prop k v props) = Some v.
Proof.
  induction props as [|[k' v'] props IH]; simpl.
  - by rewrite String.eqb_refl.
  - destruct (String.eqb k k') eqn:E; simpl; rewrite E; [done | apply IH].
Qed.

Lemma get_prop_set_prop_ne (k k0 : string) (v : json) (props : list (string * json)) :
  k0 ≠ k → get_prop k0 (set_prop k v props) = get_prop k0 props.
Proof.
  intros Hne. induction props as [|[k' v'] props IH]; simpl.
  - destruct (String.eqb_spec k0 k); [done | done].
  - destruct (String.eqb_spec k k') as [->|Hk]; simpl.
    + destruct (String.eqb_spec k0 k'); [done | done].
    + destruct (String.eqb_spec k0 k'); [done | apply IH].
Qed.

Section ConversationProperties.
Context `{CryptoJS} `{Ecies} `{JSONCodec} `{Web3} `{!World}.

Lemma createEncrypted_state (address : string) (convObj : loc)
    (messageObj : MessageArg) (st : Messaging) :
  state_of (createEncrypted address convObj messageObj st) = st.
Proof.
  unfold createEncrypted.
  destruct (negb (isAddress address)); [done|].
  destruct (toChecksumAddress (Some address)); [|done].
  destruct (negb (validateMessage _)); [done|].
  by destruct (ConvObj.keys (deref st convObj) !! 0%nat).
Qed.

(** What [createEncrypted] returns when it returns an envelope. *)
Lemma createEncrypted_Some (address : string) (convObj : loc)
    (messageObj : MessageArg) (st st' : Messaging) (content : Content) :
  createEncrypted address convObj messageObj st = Return (Some content) st' →
  st' = st ∧ ∃ emsg i, content = ContentMsg emsg i (account_key st) None.
Proof.
  unfold createEncrypted.
  destruct (negb (isAddress address)); [done|].
  destruct (toChecksumAddress (Some address)); [|done].
  destruct (negb (validateMessage _)); [done|].
  destruct (ConvObj.keys (deref st convObj) !! 0%nat); [|done].
  intros [= <- <-]. eauto.
Qed.


Lemma getRegisteredKey_None (key : string) (st : Messaging) :
  (getRegisteredKey key st).1 = None → getRegisteredKey key st = (None, st).
Proof.
  unfold getRegisteredKey.
  destruct (_registryCache st !! key); [done|].
  by destruct (GET_accounts key).
Qed.

Lemma startConv_None (remoteEthAddress : string) (st : Messaging) :
  (getRegisteredKey remoteEthAddress st).1 = None →
  startConv remoteEthAddress st = Return None st.
Proof.
  intros Hnone. unfold startConv. by rewrite (getRegisteredKey_None _ _ Hnone).
Qed.

(** C9.  When the registry has no entry for the remote address, [startConv]
    returns [undefined] and leaves the engine as it was: nothing is posted,
    nothing is emitted.  [sendConvMessage] to that address, given as an
    address or through a room id, then ends without having changed the
    engine either; it does not return a room id, and for a valid address
    it returns [undefined]. *)
Theorem startConv_unregistered (remoteEthAddress : string) (st : Messaging) :
  (getRegisteredKey remoteEthAddress st).1 = None →
  startConv remoteEthAddress st = Return None st
  ∧ ∀ roomIdOrAddress messageObj,
      toChecksumAddress
        (if isRoomId roomIdOrAddress
         then find_remote st (getRecipients roomIdOrAddress)
         else Some roomIdOrAddress) = Some remoteEthAddress →
      let result := sendConvMessage roomIdOrAddress messageObj st in
      state_of result = st
      ∧ posted (state_of result) = posted st
      ∧ emitted (state_of result) = emitted st
      ∧ (∀ roomId st', result ≠ Return (Some roomId) st')
      ∧ (isRoomId roomIdOrAddress = false →
         isAddress roomIdOrAddress = true →
         is_Some (generateRoomId (account_key st) roomIdOrAddress) →
         result = Return None st).
Proof.
  intros Hnone. split; [by apply startConv_None|].
  intros arg messageObj Hremote result.
  assert (state_of result = st
          ∧ (∀ roomId st', result ≠ Return (Some roomId) st')
          ∧ (isRoomId arg = false → isAddress arg = true →
             is_Some (generateRoomId (account_key st) arg) →
             result = Return None st)) as (Hst & Hret & Hvalid).
  { subst result. unfold sendConvMessage.
    destruct (_sending_message st) eqn:Hsending.
    - split_and!; [done | done |].
      intros Hroom Haddr [roomId Hgen]. done.
    - destruct (isRoomId arg) eqn:Hroom.
      + rewrite Hremote, (startConv_None _ _ Hnone). done.
      + destruct (isAddress arg) eqn:Haddr; simpl; [|done].
        destruct (generateRoomId (account_key st) arg) as [roomId|] eqn:Hgen.
        * rewrite Hremote, (startConv_None _ _ Hnone). done.
        * split_and!; [done | done |]. by intros _ _ [? ?]. }
  split_and!; try done; by rewrite Hst.
Qed.

Lemma keys_deduplicated_objs (st st' : Messaging) :
  objs st' = objs st → keys_deduplicated st → keys_deduplicated st'.
Proof. unfold keys_deduplicated. by intros ->. Qed.

(** [startConv] pushes its key on a list it has found empty. *)
Lemma keys_deduplicated_first_key (l : loc) (key : string) (v : Js.value)
    (st : Messaging) :
  keys_deduplicated st →
  (length (ConvObj.keys (deref st l)) =? 0)%nat = true →
  keys_deduplicated
    (mutate l
       (λ c, ConvObj.set_messageCount (Js.add (ConvObj.messageCount c) v)
               (ConvObj.set_keys (ConvObj.keys c ++ [key]) c)) st).
Proof.
  intros Hinv Hempty. apply keys_deduplicated_mutate; [done|].
  intros c Hc _. simpl. unfold deref in Hempty. rewrite Hc in Hempty. simpl in Hempty.
  destruct (ConvObj.keys c); [apply NoDup_singleton | done].
Qed.

(** What [startConv] may change: the registry cache, the object it
    returns, and the list of requests, by one [keys] envelope. *)
Lemma startConv_frame (remoteEthAddress : string) (st : Messaging) :
  let st' := state_of (startConv remoteEthAddress st) in
  account_key st' = account_key st
  ∧ emitted st' = emitted st
  ∧ fetching st' = fetching st
  ∧ convs st' = convs st
  ∧ (∀ p, p ∈ posted st' → p ∈ posted st ∨ ∃ a ks, Post.content p = ContentKeys a ks)
  ∧ (keys_deduplicated st → keys_deduplicated st').
Proof.
  unfold startConv, getRegisteredKey, addRoomMsg, alloc.
  repeat case_match; simplify_eq/=.
  all: split_and!; try done.
  all: try (intros p Hp; by left).
  all: try (intros p Hp; apply elem_of_app in Hp as [?|Hp]; [by left|];
            apply list_elem_of_singleton in Hp as ->; right; by eauto).
  all: intros Hinv.
  all: try (apply (keys_deduplicated_first_key _ _ _ (post _ _)); [|done]).
  all: try (apply (keys_deduplicated_objs _ (set_objs _ _)); [done|]).
  all: try (apply (keys_deduplicated_alloc (ConvObj.mk [] [] _ _)); [|constructor]).
  all: try (by apply (keys_deduplicated_objs _ _ eq_refl)).
Qed.

Lemma addRoomMsg_objs (conversationId : string) (conversationIndex : Js.value)
    (content : Content) (st : Messaging) :
  objs (state_of (addRoomMsg conversationId conversationIndex content st)) = objs st.
Proof. unfold addRoomMsg. by destruct (account st). Qed.

Lemma keys_deduplicated_sendConvMessage (roomIdOrAddress : string)
    (messageObj : MessageArg) (st : Messaging) :
  keys_deduplicated st →
  keys_deduplicated (state_of (sendConvMessage roomIdOrAddress messageObj st)).
Proof.
  intros Hinv. unfold sendConvMessage.
  destruct (_sending_message st); [done|].
  match goal with |- context [match ?r with _ => _ end] => destruct r as [[remote [roomId|]]|] end;
    [|done..].
  destruct (toChecksumAddress remote) as [remoteEthAddress|]; [|done].
  destruct (startConv_frame remoteEthAddress st) as (_ & _ & _ & _ & _ & Hstart).
  specialize (Hstart Hinv).
  destruct (startConv remoteEthAddress st) as [[convObj|] st1|e st1]; [|done..].
  simpl in Hstart.
  pose proof (createEncrypted_state remoteEthAddress convObj messageObj st1) as Hst.
  destruct (createEncrypted remoteEthAddress convObj messageObj st1)
    as [[encryptedContent|] st2|e st2]; simpl in Hst; subst st2; [|done..].
  match goal with |- context [addRoomMsg ?r ?i ?c ?s] =>
    pose proof (addRoomMsg_objs r i c s) as Hobjs;
    destruct (addRoomMsg r i c s) as [result st3|e st3] end;
    simpl in Hobjs; by apply (keys_deduplicated_objs st1).
Qed.

(** What [createOutOfBandMessage] is made of when it returns an
    envelope. *)
Lemma createOutOfBandMessage_Some (address : string) (messageObj : MessageArg)
    (st st' : Messaging) (content : Content) :
  createOutOfBandMessage address messageObj st = Return (Some content) st' →
  ∃ remoteEthAddress convObj encryptedContent myAddress,
    isAddress address = true
    ∧ toChecksumAddress (Some address) = Some remoteEthAddress
    ∧ startConv remoteEthAddress st = Return (Some convObj) st'
    ∧ createEncrypted remoteEthAddress convObj messageObj st'
      = Return (Some encryptedContent) st'
    ∧ toChecksumAddress (Some remoteEthAddress) = Some myAddress
    ∧ content = set_to myAddress encryptedContent.
Proof.
  unfold createOutOfBandMessage.
  destruct (isAddress address); [|done]. simpl.
  destruct (toChecksumAddress (Some address)) as [remoteEthAddress|] eqn:Hremote;
    [|done].
  destruct (startConv remoteEthAddress st) as [[convObj|] st1|e st1] eqn:Hstart;
    [|done..].
  pose proof (createEncrypted_state remoteEthAddress convObj messageObj st1) as Hst.
  destruct (createEncrypted remoteEthAddress convObj messageObj st1)
    as [[encryptedContent|] st2|e st2] eqn:Henc; simpl in Hst; subst st2; [|done..].
  destruct (toChecksumAddress (Some remoteEthAddress)) as [myAddress|] eqn:Hmy;
    [|done].
  intros [= <- <-]. by exists remoteEthAddress, convObj, encryptedContent, myAddress.
Qed.

Lemma keys_deduplicated_createOutOfBandMessage (address : string)
    (messageObj : MessageArg) (st : Messaging) :
  keys_deduplicated st →
  keys_deduplicated (state_of (createOutOfBandMessage address messageObj st)).
Proof.
  intros Hinv. unfold createOutOfBandMessage.
  destruct (negb (isAddress address)); [done|].
  destruct (toChecksumAddress (Some address)) as [remoteEthAddress|]; [|done].
  destruct (startConv_frame remoteEthAddress st) as (_ & _ & _ & _ & _ & Hstart).
  specialize (Hstart Hinv).
  destruct (startConv remoteEthAddress st) as [[convObj|] st1|e st1]; [|done..].
  simpl in Hstart.
  pose proof (createEncrypted_state remoteEthAddress convObj messageObj st1) as Hst.
  destruct (createEncrypted remoteEthAddress convObj messageObj st1)
    as [[encryptedContent|] st2|e st2]; simpl in Hst; subst st2; [|done..].
  by destruct (toChecksumAddress (Some remoteEthAddress)).
Qed.

(** C7 (amended).  When [createOutOfBandMessage] returns an envelope, it is
    the [msg] envelope [createEncrypted] built for the recipient, with a
    [to] field added; the envelope is not posted (the one request the call
    may have sent is the [keys] envelope of [startConv]); and [to] is
    [toChecksumAddress(remoteEthAddress)], the recipient's checksummed
    address, held in the variable named [myAddress]. *)
Theorem createOutOfBandMessage_to_is_recipient (address : string)
    (messageObj : MessageArg) (st st' : Messaging) (content : Content) :
  createOutOfBandMessage address messageObj st = Return (Some content) st' →
  ∃ remoteEthAddress convObj emsg i to,
    isAddress address = true
    ∧ toChecksumAddress (Some address) = Some remoteEthAddress
    ∧ startConv remoteEthAddress st = Return (Some convObj) st'
    ∧ createEncrypted remoteEthAddress convObj messageObj st'
      = Return (Some (ContentMsg emsg i (account_key st) None)) st'
    ∧ toChecksumAddress (Some remoteEthAddress) = Some to
    ∧ content = ContentMsg emsg i (account_key st) (Some to)
    ∧ (∀ p, p ∈ posted st' →
            p ∈ posted st ∨ ∃ a ks, Post.content p = ContentKeys a ks).
Proof.
  intros Hret.
  destruct (createOutOfBandMessage_Some _ _ _ _ _ Hret)
    as (remote & convObj & enc & my & Haddr & Hremote & Hstart & Henc & Hmy & ->).
  destruct (createEncrypted_Some _ _ _ _ _ _ Henc) as (_ & emsg & i & ->).
  destruct (startConv_frame remote st) as (Hkey & _ & _ & _ & Hposts & _).
  rewrite Hstart in Hkey, Hposts. simpl in Hkey, Hposts.
  exists remote, convObj, emsg, i, my.
  rewrite <- Hkey. by split_and!.
Qed.

(** *** Calls that are suspended and resumed *)

(** A call does nothing to the engine before its first [await]. *)
Lemma call_engine (st : Messaging) :
  (∀ remoteEthAddress caller, (startConv_call remoteEthAddress caller st).1 = st)
  ∧ (∀ roomIdOrAddress messageObj,
       (sendConvMessage_call roomIdOrAddress messageObj st).1 = st)
  ∧ (∀ address, (createOutOfBandMessage_call address st).1 = st)
  ∧ (∀ remoteEthAddress, (canReceiveMessages_call remoteEthAddress st).1 = st).
Proof.
  assert (∀ remoteEthAddress caller, (startConv_call remoteEthAddress caller st).1 = st)
    as Hstart.
  { intros remote caller. unfold startConv_call.
    by destruct (_registryCache st !! remote). }
  split_and!; [done | | |].
  - intros arg messageObj. unfold sendConvMessage_call.
    repeat case_match; try done; apply Hstart.
  - intros address. unfold createOutOfBandMessage_call.
    repeat case_match; try done; apply Hstart.
  - intros remote. unfold canReceiveMessages_call. by repeat case_match.
Qed.

(** What a resumption may change.  It never emits an event and never
    touches the room table; the only conversation objects it writes to are
    a new one, without keys and messages, and the one [startConv] pushes its
    key onto. *)
Lemma resume_frame (t : Task) (st : Messaging) :
  let st' := (resume t st).1 in
  account_key st' = account_key st
  ∧ account st' = account st
  ∧ emitted st' = emitted st
  ∧ convs st' = convs st
  ∧ fetching st' = fetching st
  ∧ (objs st' = objs st
     ∨ objs st' = objs st ++ [ConvObj.mk [] [] Js.Undefined (Js.Number (Js.Int 0))]
     ∨ ∃ convObj encryptKey caller,
         t = AwaitKeysPost convObj encryptKey true caller
         ∧ objs st' =
             alter (λ c, ConvObj.set_messageCount
                           (Js.add (ConvObj.messageCount c) (Js.Number (Js.Int 1)))
                           (ConvObj.set_keys (ConvObj.keys c ++ [encryptKey]) c))
               convObj (objs st)).
Proof.
  destruct t as [key caller|remote entry caller|convObj key result caller
                |convObj remote roomId messageObj|roomId convObj content|]; simpl.
  - unfold getRegisteredKey_reply. destruct (GET_accounts key); simpl; by split_and!; auto.
  - unfold startConv_entry, addRoomMsg, alloc.
    repeat case_match; simplify_eq/=; split_and!; auto.
  - destruct result; simpl; split_and!; auto.
    right. right. by exists convObj, key, caller.
  - unfold sendConvMessage_conv. destruct convObj as [convObj|]; [|by split_and!; auto].
    pose proof (createEncrypted_state remote convObj messageObj st) as Hst.
    destruct (createEncrypted remote convObj messageObj st) as [content st1|e st1];
      simpl in *; subst st1; by split_and!; auto.
  - unfold sendConvMessage_content, addRoomMsg.
    destruct content as [encryptedContent|]; [|by split_and!; auto].
    simpl. destruct (account st) eqn:Ha; simpl; split_and!; try done; by left.
  - split_and!; try done; by left.
Qed.

Lemma rank_settle (convObj : option loc) (caller : Caller) :
  (rank (settle convObj caller) ≤ 3)%nat.
Proof. destruct caller; simpl; lia. Qed.

(** Every call ends: a resumed task is suspended again only at a later
    point, and there are six of them. *)
Lemma resume_rank (t : Task) (st : Messaging) :
  (rank (resume t st).2 < rank (Some t))%nat.
Proof.
  destruct t as [key caller|remote entry caller|convObj key result caller
                |convObj remote roomId messageObj|roomId convObj content|]; simpl.
  - destruct (getRegisteredKey_reply key st) as [entry st1].
    destruct caller; simpl; lia.
  - unfold startConv_entry.
    repeat case_match; simplify_eq/=;
      first [ lia | pose proof (rank_settle None caller); lia
            | match goal with |- context [settle ?r caller] =>
                pose proof (rank_settle r caller); lia end ].
  - pose proof (rank_settle (Some convObj) caller). lia.
  - unfold sendConvMessage_conv. repeat case_match; simplify_eq/=; lia.
  - unfold sendConvMessage_content. repeat case_match; simplify_eq/=; lia.
  - lia.
Qed.

Lemma run_done (fuel : nat) (st : Messaging) : run fuel (st, None) = st.
Proof. by destruct fuel. Qed.

Lemma run_resume (fuel : nat) (t : Task) (st : Messaging) :
  run (S fuel) (st, Some t) = run fuel (resume t st).
Proof. done. Qed.

Lemma run_enough (n m : nat) :
  ∀ s : Suspension, (rank s.2 ≤ n)%nat → (rank s.2 ≤ m)%nat → run n s = run m s.
Proof.
  revert m. induction n as [|n IH]; intros m [st [t|]] Hn Hm;
    rewrite ?run_done; try done; cbn [snd] in Hn, Hm.
  - destruct t; simpl in Hn; lia.
  - destruct m as [|m]; [destruct t; simpl in Hm; lia|]. rewrite !run_resume.
    pose proof (resume_rank t st). apply IH; lia.
Qed.

(** [startConv], called for [caller], as a sequence of tasks that nothing
    interleaves with: the function [startConv], then the caller's
    continuation. *)
Lemma startConv_tasks (remoteEthAddress : string) (caller : Caller) (st : Messaging) :
  run 6 (startConv_call remoteEthAddress caller st) =
    match startConv remoteEthAddress st with
    | Return convObj st' => run 3 (st', settle convObj caller)
    | Throw _ st' => st'
    end.
Proof.
  assert (∀ n convObj st', (3 ≤ n)%nat →
            run n (st', settle convObj caller) = run 3 (st', settle convObj caller))
    as Hsettle.
  { intros n convObj st' Hn. pose proof (rank_settle convObj caller).
    apply run_enough; simpl; lia. }
  assert (∀ entry st1,
            run 5 (st1, Some (AwaitEntry remoteEthAddress entry caller)) =
              match
                match entry with
                | None => Return None st1
                | Some entry =>
                    match generateRoomId (account_key st1) remoteEthAddress with
                    | None => Throw "Error" st1
                    | Some roomId =>
                        let '(convObj, st2) :=
                          match convs st1 !! roomId with
                          | Some convObj => (convObj, st1)
                          | None =>
                              alloc (ConvObj.mk [] [] Js.Undefined (Js.Number (Js.Int 0)))
                                st1
                          end in
                        if (length (ConvObj.keys (deref st2 convObj)) =? 0)%nat then
                          match ecEncrypt st2 cryptoRandomString None, account st2 with
                          | Some ekey_mine, Some a =>
                              match ecEncrypt st2 cryptoRandomString
                                      (Some (RegistryEntry.pub_key entry)) with
                              | Some ekey_remote =>
                                  match
                                    addRoomMsg roomId
                                      (ConvObj.messageCount (deref st2 convObj))
                                      (ContentKeys (account_key st2)
                                         [ KeyEntry.mk ekey_mine (Account.address a)
                                             (account_key st2);
                                           KeyEntry.mk ekey_remote
                                             (RegistryEntry.address entry)
                                             remoteEthAddress ]) st2
                                  with
                                  | Throw e st3 => Throw e st3
                                  | Return result st3 =>
                                      if result then
                                        Return (Some convObj)
                                          (mutate convObj
                                             (λ c, ConvObj.set_messageCount
                                                     (Js.add (ConvObj.messageCount c)
                                                        (Js.Number (Js.Int 1)))
                                                     (ConvObj.set_keys
                                                        (ConvObj.keys c
                                                           ++ [cryptoRandomString]) c))
                                             st3)
                                      else Return (Some convObj) st3
                                  end
                              | None => Throw "TypeError" st2
                              end
                          | _, _ => Throw "TypeError" st2
                          end
                        else Return (Some convObj) st2
                    end
                end
              with
              | Return convObj st' => run 3 (st', settle convObj caller)
              | Throw _ st' => st'
              end) as Hentry.
  { intros entry st1. rewrite run_resume. cbn [resume].
    unfold startConv_entry, addRoomMsg.
    repeat case_match; simplify_eq/=; rewrite ?run_done; try done.
    all: try (by apply Hsettle; lia).
    all: rewrite run_resume; cbn [resume startConv_posted]; by apply Hsettle; lia. }
  unfold startConv_call, startConv, getRegisteredKey.
  destruct (_registryCache st !! remoteEthAddress) as [entry|].
  - rewrite (run_enough 6 5) by (simpl; lia). exact (Hentry (Some entry) st).
  - rewrite run_resume. cbn [resume]. unfold getRegisteredKey_reply.
    destruct (GET_accounts remoteEthAddress) as [jEntry|];
      cbn [fmap option_fmap option_map].
    + exact (Hentry (Some jEntry) _).
    + exact (Hentry None st).
Qed.


Lemma keys_deduplicated_resume (t : Task) (st : Messaging) :
  keys_deduplicated st →
  keys_deduplicated (resume t st).1
  ∨ ∃ convObj encryptKey caller,
      t = AwaitKeysPost convObj encryptKey true caller
      ∧ encryptKey ∈ ConvObj.keys (deref st convObj).
Proof.
  intros Hinv.
  destruct (resume_frame t st) as (_ & _ & _ & _ & _ & Hobjs).
  destruct Hobjs as [Hobjs|[Hobjs|(convObj & key & caller & -> & Hobjs)]].
  - left. by apply (keys_deduplicated_objs st).
  - left. unfold keys_deduplicated. rewrite Hobjs. apply Forall_app. split; [done|].
    repeat constructor.
  - destruct (decide (key ∈ ConvObj.keys (deref st convObj))) as [Hin|Hout].
    + right. by exists convObj, key, caller.
    + left. unfold keys_deduplicated. rewrite Hobjs. apply Forall_alter; [done|].
      intros c Hc Hnd. simpl. unfold deref in Hout. rewrite Hc in Hout. simpl in Hout.
      apply NoDup_app. split_and!; [done | | apply NoDup_singleton].
      intros k Hk ->%list_elem_of_singleton. done.
Qed.

(** X20.  The key lists and their writers.  [processKeys] keeps a
    duplicate-free key list duplicate-free, and processing a [keys]
    announcement a second time changes nothing.  Every step of the engine
    keeps all key lists duplicate-free, except one: the resumption of
    [startConv] after its [keys] POST was accepted, when the object it
    pushes onto has come to list the new key in the meantime.  A call
    that nothing interleaves with keeps them duplicate-free. *)
Theorem keys_deduplicated_but_for_startConv :
  (∀ st entries convObj,
     NoDup (ConvObj.keys (deref st convObj)) →
     NoDup (ConvObj.keys (deref (processKeys entries convObj st) convObj)))
  ∧ (∀ st entries convObj,
       processKeys entries convObj (processKeys entries convObj st)
       = processKeys entries convObj st)
  ∧ (∀ c c',
       step c c' → keys_deduplicated (engine c) →
       keys_deduplicated (engine c')
       ∨ ∃ convObj encryptKey caller,
           AwaitKeysPost convObj encryptKey true caller ∈ tasks c
           ∧ encryptKey ∈ ConvObj.keys (deref (engine c) convObj)
           ∧ engine c'
             = (resume (AwaitKeysPost convObj encryptKey true caller) (engine c)).1)
  ∧ (∀ st,
       keys_deduplicated st →
       (∀ remoteEthAddress,
          keys_deduplicated (state_of (startConv remoteEthAddress st)))
       ∧ (∀ roomIdOrAddress messageObj,
            keys_deduplicated (state_of (sendConvMessage roomIdOrAddress messageObj st)))
       ∧ (∀ address messageObj,
            keys_deduplicated (state_of (createOutOfBandMessage address messageObj st)))).
Proof.
  split_and!.
  - intros st entries convObj Hnd.
    destruct (objs st !! convObj) as [c|] eqn:Hc.
    + rewrite deref_processKeys by eauto. by apply foldl_processKey_NoDup.
    + unfold deref, processKeys. rewrite lookup_mutate, decide_True, Hc by done.
      simpl. constructor.
  - intros st entries convObj. apply processKeys_idem.
  - intros c c' Hstep Hinv.
    destruct (call_engine (engine c)) as (Hstart & Hsend & Hoob & Hprobe).
    destruct Hstep as [c entry|c roomId|c roomId convObj messages Hfetch|c remote
                      |c arg messageObj|c address|c remote|c ts1 t ts2 Hts]; simpl.
    + left. by apply keys_deduplicated_onMessageUpdate.
    + left. by apply keys_deduplicated_getRoom_begin.
    + left. unfold getRoom_resume. apply keys_deduplicated_forEach.
      by apply (keys_deduplicated_objs (engine c)).
    + left. by rewrite Hstart.
    + left. by rewrite Hsend.
    + left. by rewrite Hoob.
    + left. by rewrite Hprobe.
    + destruct (keys_deduplicated_resume t (engine c) Hinv)
        as [?|(convObj & key & caller & -> & Hin)]; [by left|].
      right. exists convObj, key, caller. split_and!; [|done..].
      rewrite Hts. apply elem_of_app. right. by left.
  - intros st Hinv. split_and!.
    + intros remote. by apply startConv_frame.
    + intros arg messageObj. by apply keys_deduplicated_sendConvMessage.
    + intros address messageObj. by apply keys_deduplicated_createOutOfBandMessage.
Qed.

End ConversationProperties.

Section KeyPushedTwice.
#[local] Existing Instances Toy.cryptojs Toy.ecies Toy.jsoncodec Toy.web3 Toy.world.

(** C6.  The key list of a room comes to hold a key twice.  Alice's engine
    holds the room with Bob without a key (the entry at index 0 gave her
    none).  She calls [startConv]: the list is empty, so the [keys] envelope
    with the new key k1 is posted at index 1.  While the reply to the POST is
    awaited, the live stream delivers that entry: [processKeys] adds k1.
    Then the reply arrives and [startConv] pushes k1, without looking. *)
Theorem startConv_pushes_key_twice :
  deref Race.joined 0%nat
    = ConvObj.mk [] [] (Js.Number (Js.Int 0)) (Js.Number (Js.Int 1))
  ∧ Race.calling = (Race.joined, Some (AwaitAccount Toy.bob (Some Reader)))
  ∧ Race.looked_up.2 = Some (AwaitEntry Toy.bob (Some Scenario.bob_entry) Reader)
  ∧ Race.posting.2 = Some (AwaitKeysPost 0%nat "k1" true Reader)
  ∧ Some <$> (Post.content <$> posted Race.posting.1) = [Entry.content Race.echo]
  ∧ Post.conversationIndex <$> posted Race.posting.1
    = [Entry.conversationIndex Race.echo]
  ∧ deref Race.posting.1 0%nat
    = ConvObj.mk [] [] (Js.Number (Js.Int 0)) (Js.Number (Js.Int 1))
  ∧ deref Race.echoed 0%nat
    = ConvObj.mk ["k1"] [] (Js.Number (Js.Int 1)) (Js.Number (Js.Int 2))
  ∧ Race.answered.2 = None
  ∧ convs Race.answered.1 !! Toy.room = Some 0%nat
  ∧ deref Race.answered.1 0%nat
    = ConvObj.mk ["k1"; "k1"] [] (Js.Number (Js.Int 1)) (Js.Number (Js.Int 3))
  ∧ reachable (mkConfig Race.answered.1 [])
  ∧ ¬ keys_deduplicated Race.answered.1.
Proof.
  split_and!; try (vm_compute; reflexivity).
  - exists (mkConfig Toy.fresh []). split; [done|].
    eapply rtc_l; [apply (step_getRoom _ Toy.room)|].
    eapply rtc_l; [apply (step_getRoom_reply _ Toy.room 0%nat [Race.opening]); by left|].
    eapply rtc_l; [apply (step_startConv _ Toy.bob)|].
    eapply rtc_l;
      [apply (step_resume _ [] (AwaitAccount Toy.bob (Some Reader)) []);
       vm_compute; reflexivity|].
    eapply rtc_l;
      [apply (step_resume _ [] (AwaitEntry Toy.bob (Some Scenario.bob_entry) Reader) []);
       vm_compute; reflexivity|].
    eapply rtc_l; [apply (step_onMessageUpdate _ Race.echo)|].
    eapply rtc_l;
      [apply (step_resume _ [] (AwaitKeysPost 0%nat "k1" true Reader) []);
       vm_compute; reflexivity|].
    match goal with
    | |- rtc step ?c ?c' => assert (c = c') as -> by (vm_compute; reflexivity)
    end.
    apply rtc_refl.
  - unfold keys_deduplicated. intros Hall.
    assert (objs Race.answered.1 !! 0%nat
            = Some (ConvObj.mk ["k1"; "k1"] [] (Js.Number (Js.Int 1))
                      (Js.Number (Js.Int 3)))) as Hobj by (vm_compute; reflexivity).
    rewrite Forall_lookup in Hall. pose proof (Hall _ _ Hobj) as Hnd.
    simpl in Hnd. apply NoDup_cons in Hnd as [Hnotin _]. apply Hnotin. by left.
Qed.

End KeyPushedTwice.

(** ** Bulk load *)

Section BulkLoad.
Context `{CryptoJS} `{Ecies} `{JSONCodec}.

Lemma is_Some_mutate (l : nat) (f : ConvObj.t → ConvObj.t) (st : Messaging) :
  is_Some (objs st !! l) → is_Some (objs (mutate l f st) !! l).
Proof. intros [c Hc]. rewrite lookup_mutate, decide_True, Hc by done. simpl. eauto. Qed.

Lemma recovered_account (st st' : Messaging) (v : KeyEntry.t) :
  account_key st' = account_key st → account st' = account st →
  recovered st' v = recovered st v.
Proof. intros Hk Ha. unfold recovered, ecDecrypt. by rewrite Hk, Ha. Qed.

(** The effect of one entry on the object that ingests it and on the rest
    of the engine. *)
Lemma ingest_entry (roomId : string) (entry : Entry.t) (content : Content)
    (convObj : loc) (st : Messaging) :
  let st1 := advance entry convObj
               (processContent content convObj (onMessage_cb roomId entry convObj)
                  (onEncrypted_cb roomId entry) st) in
  is_Some (objs st !! convObj) →
  is_Some (objs st1 !! convObj)
  ∧ account st1 = account st ∧ account_key st1 = account_key st
  ∧ convs st1 = convs st
  ∧ (∀ l, l ≠ convObj → objs st1 !! l = objs st !! l)
  ∧ ConvObj.keys (deref st1 convObj) =
      match content with
      | ContentKeys _ entries =>
          foldl (processKey st) (ConvObj.keys (deref st convObj)) entries
      | _ => ConvObj.keys (deref st convObj)
      end
  ∧ (∀ m, m ∈ ConvObj.messages (deref st1 convObj) →
          m ∈ ConvObj.messages (deref st convObj)
          ∨ ∃ obj address, m = toMessage obj roomId entry address).
Proof.
  intros st1 Hc. subst st1. unfold advance.
  destruct content as [a entries|emsg i a to|ty]; simpl processContent.
  - unfold processKeys. split_and!; try done.
    + by do 2 apply is_Some_mutate.
    + intros l Hl. by rewrite !lookup_mutate, !decide_False.
    + rewrite !deref_mutate; [done | done | by apply is_Some_mutate].
    + intros m. rewrite !deref_mutate; [auto | done | by apply is_Some_mutate].
  - destruct (decryptMessage i emsg (deref st convObj)) as [obj|e];
      [destruct (json_truthy obj)|
       destruct (String.eqb e COULD_NOT_DECRYPT);
         [|destruct (String.eqb e INVALID_MESSAGE_OBJECT)]].
    + unfold onMessage_cb. split_and!; try done.
      * by do 2 apply is_Some_mutate.
      * intros l Hl. rewrite lookup_mutate, decide_False by done.
        simpl. by rewrite list_lookup_alter_ne.
      * rewrite deref_mutate by (by apply (is_Some_mutate _ _ st)).
        simpl. unfold deref. simpl. rewrite list_lookup_alter_eq.
        by destruct Hc as [c ->].
      * intros m. rewrite deref_mutate by (by apply (is_Some_mutate _ _ st)).
        simpl. unfold deref. simpl. rewrite list_lookup_alter_eq.
        destruct Hc as [c ->]. simpl. intros Hm.
        apply elem_of_app in Hm as [Hm|Hm]; [auto|].
        apply list_elem_of_singleton in Hm as ->. right. eauto.
    + split_and!; try done.
      * by apply is_Some_mutate.
      * intros l Hl. by rewrite lookup_mutate, decide_False.
      * by rewrite deref_mutate.
      * intros m. rewrite deref_mutate by done. auto.
    + unfold onEncrypted_cb. split_and!; try done.
      * by apply (is_Some_mutate _ _ (emit _ st)).
      * intros l Hl. by rewrite lookup_mutate, decide_False.
      * by rewrite (deref_mutate _ _ (emit _ st)).
      * intros m. rewrite (deref_mutate _ _ (emit _ st)) by done. auto.
    + split_and!; try done.
      * by apply is_Some_mutate.
      * intros l Hl. by rewrite lookup_mutate, decide_False.
      * by rewrite deref_mutate.
      * intros m. rewrite deref_mutate by done. auto.
    + split_and!; try done.
      * by apply is_Some_mutate.
      * intros l Hl. by rewrite lookup_mutate, decide_False.
      * by rewrite deref_mutate.
      * intros m. rewrite deref_mutate by done. auto.
  - split_and!; try done.
    + by apply is_Some_mutate.
    + intros l Hl. by rewrite lookup_mutate, decide_False.
    + by rewrite deref_mutate.
    + intros m. rewrite deref_mutate by done. auto.
Qed.

(** A key is announced to this engine by a log when one of its [keys]
    envelopes has an entry that is addressed to the engine's wallet address
    and unwraps to that key. *)
Lemma getRoom_forEach_spec (roomId : string) (convObj : loc)
    (messages : list Entry.t) :
  ∀ st st',
    is_Some (objs st !! convObj) →
    getRoom_forEach roomId convObj messages st = Return () st' →
    is_Some (objs st' !! convObj)
    ∧ convs st' = convs st
    ∧ (∀ l, l ≠ convObj → objs st' !! l = objs st !! l)
    ∧ (∀ key, key ∈ ConvObj.keys (deref st' convObj) ↔
              key ∈ ConvObj.keys (deref st convObj)
              ∨ ∃ entry a entries v,
                  entry ∈ messages
                  ∧ Entry.content entry = Some (ContentKeys a entries)
                  ∧ v ∈ entries ∧ recovered st v = Some key)
    ∧ (NoDup (ConvObj.keys (deref st convObj)) →
       NoDup (ConvObj.keys (deref st' convObj)))
    ∧ (∀ m, m ∈ ConvObj.messages (deref st' convObj) →
            m ∈ ConvObj.messages (deref st convObj)
            ∨ ∃ entry obj address,
                entry ∈ messages ∧ m = toMessage obj roomId entry address).
Proof.
  induction messages as [|entry rest IH]; intros st st' Hc; simpl.
  - intros [= <-]. split_and!; try done.
    + intros key. split; [auto|]. intros [?|(e & ? & ? & ? & He & _)]; [done|].
      by apply not_elem_of_nil in He.
    + auto.
  - destruct (Entry.content entry) as [content|] eqn:Hcontent; [|done].
    intros Hrest.
    destruct (ingest_entry roomId entry content convObj st Hc)
      as (Hc1 & Hacc & Hkey & Hconvs & Hother & Hkeys & Hmsgs).
    destruct (IH _ _ Hc1 Hrest)
      as (Hc' & Hconvs' & Hother' & Hkeys' & Hnd' & Hmsgs').
    split_and!.
    + done.
    + by rewrite Hconvs'.
    + intros l Hl. by rewrite Hother', Hother.
    + intros key. rewrite Hkeys', Hkeys. split.
      * intros [Hin|(e & a & es & v & He & Hce & Hv & Hrec)].
        -- destruct content as [a es| |]; [|by left..].
           apply elem_of_foldl_processKey in Hin as [?|(v & Hv & Hrec)]; [by left|].
           right. exists entry, a, es, v. split_and!; [left|done..].
        -- right. exists e, a, es, v. split_and!; [by right|done..|].
           by rewrite <- (recovered_account st _ v Hkey Hacc).
      * intros [Hin|(e & a & es & v & He & Hce & Hv & Hrec)].
        -- left. destruct content as [a es| |]; [|done..].
           apply elem_of_foldl_processKey. by left.
        -- apply elem_of_cons in He as [->|He].
           ++ left. rewrite Hcontent in Hce. injection Hce as ->.
              apply elem_of_foldl_processKey. right. eauto.
           ++ right. exists e, a, es, v. split_and!; [done..|].
              by rewrite (recovered_account st _ v Hkey Hacc).
    + intros Hnd. apply Hnd'. rewrite Hkeys.
      destruct content as [a es| |]; [|done..].
      by apply foldl_processKey_NoDup.
    + intros m Hm. apply Hmsgs' in Hm as [Hm|(e & obj & a & He & ->)].
      * apply Hmsgs in Hm as [?|(obj & a & ->)]; [by left|].
        right. exists entry, obj, a. split; [left | done].
      * right. exists e, obj, a. split; [by right | done].
Qed.

(** The loop runs to its end when every entry of the reply has a
    [content]. *)
Lemma getRoom_forEach_total (roomId : string) (convObj : loc)
    (messages : list Entry.t) :
  Forall (λ entry, is_Some (Entry.content entry)) messages →
  ∀ st, ∃ st', getRoom_forEach roomId convObj messages st = Return () st'.
Proof.
  induction 1 as [|entry rest [content Hcontent] _ IH]; intros st; simpl; [eauto|].
  rewrite Hcontent. apply IH.
Qed.

Lemma key_entries_cons (entry : Entry.t) (log : list Entry.t) :
  key_entries (entry :: log) =
    match Entry.content entry with
    | Some (ContentKeys _ entries) => entries
    | _ => []
    end ++ key_entries log.
Proof. unfold key_entries. by rewrite bind_cons. Qed.

(** The key list after the loop: the loop body of [processKeys], run over
    the entries of all [keys] envelopes of the reply. *)
Lemma getRoom_forEach_keys (roomId : string) (convObj : loc)
    (messages : list Entry.t) :
  ∀ st st',
    is_Some (objs st !! convObj) →
    getRoom_forEach roomId convObj messages st = Return () st' →
    ConvObj.keys (deref st' convObj)
    = foldl (processKey st) (ConvObj.keys (deref st convObj)) (key_entries messages).
Proof.
  induction messages as [|entry rest IH]; intros st st' Hc.
  - by intros [= <-].
  - rewrite key_entries_cons. cbn [getRoom_forEach].
    destruct (Entry.content entry) as [content|] eqn:Hcontent; [|done].
    intros Hrest.
    destruct (ingest_entry roomId entry content convObj st Hc)
      as (Hc1 & Hacc & Hkey & _ & _ & Hkeys & _).
    rewrite (IH _ _ Hc1 Hrest), Hkeys, (processKey_account st _ Hkey Hacc), foldl_app.
    by destruct content.
Qed.


End BulkLoad.

(** ** The engine on concrete inputs *)

Module Examples.
Import Toy.
#[local] Existing Instances cryptojs ecies jsoncodec web3 world.

Lemma strip_append (key text : string) : strip key (key +:+ text) = Some text.
Proof.
  induction key as [|c key IH]; simpl; [done|].
  by rewrite Ascii.eqb_refl.
Qed.

Lemma laws : CryptoJSLaws.
Proof.
  split.
  - intros text key iv. simpl. apply strip_append.
  - intros text. simpl. apply length_substring.
    rewrite length_append. simpl. lia.
Qed.

#[local] Existing Instance laws.


(** An envelope for Bob and Carol leaves Alice's key list alone. *)
Lemma processKeys_ignores_other_addresses_witness :
  processContent keys_for_others 0%nat (λ _ _ st, st) (λ _ _ st, st)
    (with_room stale_room) = with_room stale_room.
Proof.
  apply (processKeys_ignores_other_addresses (with_room stale_room) bob
           [KeyEntry.mk "PB:k2" "0xMB" bob; KeyEntry.mk "PA:k3" "0xMC" carol] 0%nat).
  repeat constructor; discriminate.
Defined.

(** Bob's text decrypts under k1 and is JSON, but not a message: nothing
    is emitted. *)
Lemma processContent_invalid_message_silent_witness :
  emitted
    (onMessageUpdate (Entry.mk (Some not_a_message) (Some room) (Js.Number (Js.Int 3)))
       loaded)
  = emitted loaded.
Proof.
  assert (decryptMessage "iv" "k1{content:7}{conte" (deref loaded 0%nat)
          = DecryptedError INVALID_MESSAGE_OBJECT) as Hinvalid
    by (vm_compute; reflexivity).
  destruct (processContent_invalid_message_silent "k1{content:7}{conte" "iv" bob None
              0%nat loaded Hinvalid) as (_ & Hlive & _).
  apply (Hlive _ room); reflexivity.
Defined.

(** Carol is not enrolled. *)
Lemma startConv_unregistered_witness :
  startConv carol fresh = Return None fresh
  ∧ sendConvMessage carol (MessageText "hi") fresh = Return None fresh.
Proof.
  assert ((getRegisteredKey carol fresh).1 = None) as Hnone
    by (vm_compute; reflexivity).
  destruct (startConv_unregistered carol fresh Hnone) as [Hstart Hsend].
  split; [exact Hstart|].
  assert (toChecksumAddress
            (if isRoomId carol then find_remote fresh (getRecipients carol)
             else Some carol) = Some carol) as Hcarol
    by (vm_compute; reflexivity).
  destruct (Hsend carol (MessageText "hi") Hcarol) as (_ & _ & _ & _ & Hret).
  apply Hret; [reflexivity | reflexivity | eexists; reflexivity].
Defined.

Lemma createOutOfBandMessage_to_is_recipient_witness :
  ∃ remoteEthAddress convObj emsg i to,
    toChecksumAddress (Some bob) = Some remoteEthAddress
    ∧ toChecksumAddress (Some remoteEthAddress) = Some to
    ∧ startConv remoteEthAddress fresh
      = Return (Some convObj)
          (state_of (createOutOfBandMessage bob (MessageText "hi") fresh))
    ∧ out_of_band = ContentMsg emsg i alice (Some to).
Proof.
  assert (createOutOfBandMessage bob (MessageText "hi") fresh
          = Return (Some out_of_band)
              (state_of (createOutOfBandMessage bob (MessageText "hi") fresh)))
    as Hreturns by (vm_compute; reflexivity).
  destruct (createOutOfBandMessage_to_is_recipient bob (MessageText "hi") fresh
              (state_of (createOutOfBandMessage bob (MessageText "hi") fresh))
              out_of_band Hreturns)
    as (remote & convObj & emsg & i & to & _ & Hremote & Hstart & _ & Hto & Hcontent & _).
  exists remote, convObj, emsg, i, to. by split_and!.
Defined.

(** C7, as stated, fails: Alice creates an envelope for Bob; its [to] is
    Bob's address, not Alice's own checksummed address. *)
Lemma createOutOfBandMessage_to_is_not_sender :
  ∃ st',
    createOutOfBandMessage bob (MessageText "hi") fresh
    = Return (Some (ContentMsg "k1{content:hi,created:1700000000000}{conte" "iv"
                      alice (Some bob))) st'
    ∧ toChecksumAddress (Some (account_key fresh)) = Some alice
    ∧ Some bob ≠ toChecksumAddress (Some (account_key fresh)).
Proof.
  exists (state_of (createOutOfBandMessage bob (MessageText "hi") fresh)).
  split_and!; [reflexivity | reflexivity | discriminate].
Qed.



End Examples.

(** ** The round trip behind a key that passes the tag check *)

Module CollisionExamples.
Import Toy.
#[local] Existing Instances Collision.cryptojs ecies jsoncodec web3 Collision.world.

Lemma collision_laws : CryptoJSLaws.
Proof.
  split.
  - intros text key iv. simpl. by rewrite Examples.strip_append.
  - intros text. simpl. apply length_substring.
    rewrite length_append. simpl. lia.
Qed.


End CollisionExamples.

(** * Further properties *)

(** ** Room ids *)

Lemma append_assoc (a b c : string) : (a +:+ b) +:+ c = a +:+ (b +:+ c).
Proof.
  induction a as [|x a IH]; [done|].
  change (String x ((a +:+ b) +:+ c) = String x (a +:+ (b +:+ c))). by f_equal.
Qed.

Lemma append_nil_end (a : string) : a +:+ "" = a.
Proof.
  induction a as [|x a IH]; [done|].
  change (String x (a +:+ "") = String x a). by f_equal.
Qed.

Lemma isRoomId_append (a b : string) : isRoomId (a +:+ b) = isRoomId a || isRoomId b.
Proof.
  induction a as [|x a IH]; [done|]. simpl.
  rewrite IH. by rewrite orb_assoc.
Qed.

Lemma split_dash_plain (s : string) :
  isRoomId s = false → ∀ acc, split_dash acc s = [acc +:+ s].
Proof.
  induction s as [|c s IH]; intros Hs acc; cbn [split_dash].
  - by rewrite append_nil_end.
  - cbn [isRoomId] in Hs. apply orb_false_iff in Hs as [Hc Hs]. rewrite Hc.
    rewrite (IH Hs). by rewrite append_assoc.
Qed.

Lemma split_dash_joined (a b : string) :
  isRoomId a = false →
  ∀ acc, split_dash acc (a +:+ "-" +:+ b) = (acc +:+ a) :: split_dash "" b.
Proof.
  induction a as [|c a IH]; intros Ha acc.
  - cbn. by rewrite append_nil_end.
  - cbn [isRoomId] in Ha. apply orb_false_iff in Ha as [Hc Ha].
    simpl. rewrite Hc.
    rewrite (IH Ha). by rewrite append_assoc.
Qed.

Lemma ltb_asym (a b : string) : String.ltb a b = true → String.ltb b a = false.
Proof.
  unfold String.ltb. rewrite (String.compare_antisym b a).
  by destruct (String.compare a b).
Qed.

Lemma ltb_total (a b : string) :
  String.ltb a b = false → String.ltb b a = false → a = b.
Proof.
  unfold String.ltb. rewrite (String.compare_antisym b a).
  destruct (String.compare a b) eqn:Hcmp; try done.
  intros _ _. by apply String.compare_eq_iff.
Qed.

Section RoomIds.
Context `{Web3}.

(** X1.  The room id does not depend on the order of the two conversers. *)
Theorem generateRoomId_comm (converser1 converser2 : string) :
  generateRoomId converser1 converser2 = generateRoomId converser2 converser1.
Proof.
  unfold generateRoomId.
  destruct (toChecksumAddress (Some converser1)) as [k1|],
           (toChecksumAddress (Some converser2)) as [k2|]; try done.
  destruct (String.ltb k2 k1) eqn:H21.
  - by rewrite (ltb_asym _ _ H21).
  - destruct (String.ltb k1 k2) eqn:H12; [done|].
    by rewrite (ltb_total _ _ H12 H21).
Qed.

Lemma generated_room (converser1 converser2 k1 k2 : string) :
  toChecksumAddress (Some converser1) = Some k1 →
  toChecksumAddress (Some converser2) = Some k2 →
  isRoomId k1 = false →
  isRoomId k2 = false →
  ∃ roomId,
    generateRoomId converser1 converser2 = Some roomId
    ∧ isRoomId roomId = true
    ∧ (getRecipients roomId = [k1; k2] ∨ getRecipients roomId = [k2; k1])
    ∧ ∀ st, account_key st = k1 → k2 ≠ k1 →
        find_remote st (getRecipients roomId) = Some k2.
Proof.
  intros Hc1 Hc2 Hd1 Hd2. unfold generateRoomId. rewrite Hc1, Hc2.
  assert (∀ a b, isRoomId a = false → isRoomId b = false →
            isRoomId (a +:+ "-" +:+ b) = true
            ∧ getRecipients (a +:+ "-" +:+ b) = [a; b]) as Hpair.
  { intros a b Ha Hb. split.
    - rewrite isRoomId_append, Ha. done.
    - unfold getRecipients. rewrite split_dash_joined by done.
      by rewrite split_dash_plain. }
  assert (∀ st, account_key st = k1 → k2 ≠ k1 →
            find_remote st [k1; k2] = Some k2 ∧ find_remote st [k2; k1] = Some k2)
    as Hfind.
  { intros st Hme Hne. unfold find_remote. simpl. rewrite Hme.
    rewrite String.eqb_refl. simpl.
    destruct (String.eqb_spec k2 k1); [done|]. done. }
  destruct (String.ltb k2 k1).
  - destruct (Hpair k2 k1 Hd2 Hd1) as [Hroom Hrec].
    eexists. split_and!; [done | done | by right |].
    intros st Hme Hne. rewrite Hrec. by destruct (Hfind st Hme Hne).
  - destruct (Hpair k1 k2 Hd1 Hd2) as [Hroom Hrec].
    eexists. split_and!; [done | done | by left |].
    intros st Hme Hne. rewrite Hrec. by destruct (Hfind st Hme Hne).
Qed.

(** X2.  A generated room id is recognised as a room id and splits back into
    the two checksummed addresses.  In an engine whose address is in
    checksummed form it resolves to the peer: [sendConvMessage] by room id
    finds the peer's address, and once the engine holds the room,
    [getMyConvs] lists it under the peer's address and [hasConversedWith]
    and [getConvo] return its object. *)
Theorem generateRoomId_resolves (converser1 converser2 k1 k2 : string) :
  toChecksumAddress (Some converser1) = Some k1 →
  toChecksumAddress (Some converser2) = Some k2 →
  isRoomId k1 = false →
  isRoomId k2 = false →
  ∃ roomId,
    generateRoomId converser1 converser2 = Some roomId
    ∧ isRoomId roomId = true
    ∧ (getRecipients roomId = [k1; k2] ∨ getRecipients roomId = [k2; k1])
    ∧ ∀ st, account_key st = k1 → k2 ≠ k1 →
        find_remote st (getRecipients roomId) = Some k2
        ∧ ∀ room, converser1 = k1 → convs st !! roomId = Some room →
            k2 ∈ getMyConvs st
            ∧ hasConversedWith converser2 st = Some (Some room)
            ∧ getConvo converser2 st = Some (Some room).
Proof.
  intros Hc1 Hc2 Hd1 Hd2.
  destruct (generated_room _ _ _ _ Hc1 Hc2 Hd1 Hd2)
    as (roomId & Hgen & Hroom & Hrec & Hfind).
  exists roomId. split_and!; try done.
  intros st Hme Hne. split; [by apply Hfind|].
  intros room Hc1' Hconv.
  assert (conv_key st roomId = k2) as Hkey.
  { unfold conv_key. rewrite (Hfind st Hme Hne). by destruct Hrec as [-> | ->]. }
  split_and!.
  - unfold getMyConvs. apply elem_of_map. exists roomId. split; [done|].
    apply elem_of_dom. eauto.
  - unfold hasConversedWith. rewrite Hme, <- Hc1', Hgen. by rewrite Hconv.
  - unfold getConvo. rewrite Hme, <- Hc1', Hgen. by rewrite Hconv.
Qed.

End RoomIds.

Lemma dot_split (a b x y : string) :
  occurs "." a = false → occurs "." b = false →
  a +:+ "." +:+ x = b +:+ "." +:+ y → a = b ∧ x = y.
Proof.
  revert b. induction a as [|c a IH]; intros [|d b] Ha Hb Heq.
  - by injection Heq.
  - cbn in Heq. injection Heq as <- _. cbn in Hb. done.
  - cbn in Heq. injection Heq as -> _. cbn in Ha. done.
  - simpl in Heq. injection Heq as -> Heq.
    cbn [occurs] in Ha, Hb.
    apply orb_false_iff in Ha as [_ Ha]. apply orb_false_iff in Hb as [_ Hb].
    destruct (IH b Ha Hb Heq) as [-> ->]. done.
Qed.

(** X3.  Message ids are unique: in rooms whose ids contain no dot (ids made
    of addresses), two entries with integer indices have the same id only if
    both the room and the index are the same. *)
Theorem getMessageId_inj (roomId1 roomId2 : string) (e1 e2 : Entry.t) (z1 z2 : Z) :
  occurs "." roomId1 = false →
  occurs "." roomId2 = false →
  Entry.conversationIndex e1 = Js.Number (Js.Int z1) →
  Entry.conversationIndex e2 = Js.Number (Js.Int z2) →
  getMessageId roomId1 e1 = getMessageId roomId2 e2 →
  roomId1 = roomId2 ∧ z1 = z2.
Proof.
  intros H1 H2 He1 He2. unfold getMessageId. rewrite He1, He2. simpl.
  intros Heq. destruct (dot_split _ _ _ _ H1 H2 Heq) as [-> Hz].
  split; [done|]. by apply (inj pretty).
Qed.

(** ** The registry cache *)

Section Registry.
Context `{CryptoJS}.

(** X4.  A lookup that found an entry is answered from the cache from then
    on, whatever the server would say; a lookup that found nothing leaves the
    engine as it was, so the next one asks the server again. *)
Theorem getRegisteredKey_cached (W1 W2 : World) (key : string) (st : Messaging) :
  (∀ e st',
     @getRegisteredKey _ W1 key st = (Some e, st') →
     _registryCache st' !! key = Some e
     ∧ @getRegisteredKey _ W2 key st' = (Some e, st')
     ∧ (∀ key', key' ≠ key → _registryCache st' !! key' = _registryCache st !! key')
     ∧ convs st' = convs st ∧ objs st' = objs st ∧ posted st' = posted st
     ∧ emitted st' = emitted st)
  ∧ (∀ st',
       @getRegisteredKey _ W1 key st = (None, st') →
       st' = st
       ∧ (@getRegisteredKey _ W2 key st).1 = @GET_accounts _ W2 key).
Proof.
  unfold getRegisteredKey. split.
  - intros e st'. destruct (_registryCache st !! key) as [e0|] eqn:Hcache.
    + intros [= -> <-]. by rewrite Hcache.
    + destruct (@GET_accounts _ W1 key) as [e1|]; [|done].
      intros [= -> <-]. simpl. rewrite lookup_insert_eq. split_and!; try done.
      intros key' Hne. by rewrite lookup_insert_ne.
  - intros st'. destruct (_registryCache st !! key) as [e0|] eqn:Hcache; [done|].
    destruct (@GET_accounts _ W1 key) as [e1|]; [done|].
    intros [= <-]. split; [done|]. by destruct (@GET_accounts _ W2 key).
Qed.

End Registry.

(** ** Starting a conversation *)

Section StartConv.
Context `{CryptoJS} `{Ecies} `{JSONCodec} `{Web3} `{!World}.

Lemma getRegisteredKey_frame (key : string) (st : Messaging) :
  let st' := (getRegisteredKey key st).2 in
  account_key st' = account_key st ∧ account st' = account st
  ∧ convs st' = convs st ∧ objs st' = objs st ∧ posted st' = posted st
  ∧ emitted st' = emitted st ∧ fetching st' = fetching st
  ∧ _sending_message st' = _sending_message st.
Proof.
  unfold getRegisteredKey.
  destruct (_registryCache st !! key); [done|].
  by destruct (GET_accounts key).
Qed.

(** X5.  For a room the engine holds with at least one key, [startConv]
    sends nothing and touches no conversation object: it returns the room's
    object, and only the registry cache may have changed. *)
Theorem startConv_established (remoteEthAddress roomId : string) (room : loc)
    (st : Messaging) :
  is_Some (getRegisteredKey remoteEthAddress st).1 →
  generateRoomId (account_key st) remoteEthAddress = Some roomId →
  convs st !! roomId = Some room →
  ConvObj.keys (deref st room) ≠ [] →
  startConv remoteEthAddress st
    = Return (Some room) (getRegisteredKey remoteEthAddress st).2
  ∧ posted (state_of (startConv remoteEthAddress st)) = posted st
  ∧ objs (state_of (startConv remoteEthAddress st)) = objs st
  ∧ convs (state_of (startConv remoteEthAddress st)) = convs st.
Proof.
  intros [entry Hentry] Hroom Hconv Hkeys.
  destruct (getRegisteredKey_frame remoteEthAddress st)
    as (Hkey & Hacc & Hconvs & Hobjs & Hposted & _).
  assert (startConv remoteEthAddress st
          = Return (Some room) (getRegisteredKey remoteEthAddress st).2) as Hstart.
  { unfold startConv.
    destruct (getRegisteredKey remoteEthAddress st) as [e st1]. simpl in *.
    subst e. rewrite Hkey, Hroom, Hconvs, Hconv.
    unfold deref in *. rewrite Hobjs.
    destruct (ConvObj.keys (default empty_obj (objs st !! room))); done. }
  rewrite Hstart. done.
Qed.

(** [startConv] on a room the engine does not hold, step by step. *)
Lemma startConv_new_room (remoteEthAddress roomId : string)
    (entry : RegistryEntry.t) (a : Account.t) (st : Messaging) :
  (getRegisteredKey remoteEthAddress st).1 = Some entry →
  generateRoomId (account_key st) remoteEthAddress = Some roomId →
  convs st !! roomId = None →
  account st = Some a →
  let content := keysContent st a entry remoteEthAddress in
  let request :=
    Post.mk roomId (Js.Number (Js.Int 0)) content
      (account_sign a (stringify roomId (Js.Number (Js.Int 0)) content)) in
  let convObj := length (objs st) in
  let st2 := post request
               (set_objs (λ os, os ++ [ConvObj.mk [] [] Js.Undefined (Js.Number (Js.Int 0))])
                  (getRegisteredKey remoteEthAddress st).2) in
  startConv remoteEthAddress st =
    Return (Some convObj)
      (if POST_messages request
       then mutate convObj
              (λ c, ConvObj.set_messageCount
                      (Js.add (ConvObj.messageCount c) (Js.Number (Js.Int 1)))
                      (ConvObj.set_keys (ConvObj.keys c ++ [cryptoRandomString]) c))
              st2
       else st2).
Proof.
  intros Hentry Hroom Hconv Hacc content request convObj st2.
  destruct (getRegisteredKey_frame remoteEthAddress st)
    as (Hkey & Hacc1 & Hconvs & Hobjs & _).
  subst st2. unfold startConv.
  destruct (getRegisteredKey remoteEthAddress st) as [e st1]. simpl in *. subst e.
  rewrite Hkey, Hroom, Hconvs, Hconv. unfold alloc, deref. simpl.
  rewrite Hobjs. rewrite lookup_app_r, Nat.sub_diag by done. simpl.
  unfold ecEncrypt, addRoomMsg. simpl. rewrite Hacc1, Hacc. simpl.
  fold convObj.
  assert ((if Js.truthy_string (RegistryEntry.pub_key entry)
           then Some (ecies_encrypt (RegistryEntry.pub_key entry) cryptoRandomString)
           else Some (ecies_encrypt (Account.publicKey a) cryptoRandomString))
          = Some (ecies_encrypt
                    (if Js.truthy_string (RegistryEntry.pub_key entry)
                     then RegistryEntry.pub_key entry else Account.publicKey a)
                    cryptoRandomString)) as ->
    by (by destruct (Js.truthy_string _)).
  rewrite Hkey.
  change (ContentKeys (account_key st) _) with content.
  change (Post.mk roomId (Js.Number (Js.Int 0)) content _) with request.
  by destruct (POST_messages request).
Qed.

(** X6.  For a room the engine does not hold, [startConv] posts one request:
    the [keys] envelope, on the room's id, at index 0.  When the server
    accepts it, the object [startConv] returns holds exactly the new key and
    counts one message; when it refuses, the object holds no key.  Either
    way the room table is unchanged: the object is not entered in it, so
    [getSharedKeys] still lists no key for the room and [getMessagesCount]
    still answers 0 for the peer. *)
Theorem startConv_seeds_new_room (remoteEthAddress roomId : string)
    (entry : RegistryEntry.t) (a : Account.t) (st : Messaging) :
  (getRegisteredKey remoteEthAddress st).1 = Some entry →
  generateRoomId (account_key st) remoteEthAddress = Some roomId →
  convs st !! roomId = None →
  account st = Some a →
  let content := keysContent st a entry remoteEthAddress in
  let request :=
    Post.mk roomId (Js.Number (Js.Int 0)) content
      (account_sign a (stringify roomId (Js.Number (Js.Int 0)) content)) in
  let convObj := length (objs st) in
  ∃ st',
    startConv remoteEthAddress st = Return (Some convObj) st'
    ∧ posted st' = posted st ++ [request]
    ∧ convs st' = convs st
    ∧ emitted st' = emitted st
    ∧ (∀ l, (l < convObj)%nat → objs st' !! l = objs st !! l)
    ∧ objs st' !! convObj =
        Some (if POST_messages request
              then ConvObj.mk [cryptoRandomString] [] Js.Undefined (Js.Number (Js.Int 1))
              else ConvObj.mk [] [] Js.Undefined (Js.Number (Js.Int 0)))
    ∧ getSharedKeys roomId st' = []
    ∧ getMessagesCount remoteEthAddress st' = Some (Js.Number (Js.Int 0)).
Proof.
  intros Hentry Hroom Hconv Hacc content request convObj.
  destruct (getRegisteredKey_frame remoteEthAddress st)
    as (Hkey & _ & Hconvs & Hobjs & Hposted & Hemitted & _).
  unfold getSharedKeys, getMessagesCount.
  eexists. split; [by apply (startConv_new_room remoteEthAddress roomId entry a)|].
  fold content. fold request. fold convObj.
  destruct (POST_messages request); simpl;
    rewrite ?Hposted, ?Hconvs, ?Hemitted, ?Hobjs, ?Hkey, ?Hroom, ?Hconv.
  - split_and!; try done.
    + intros l Hl. rewrite list_lookup_alter_ne by (unfold convObj; lia).
      by rewrite lookup_app_l.
    + rewrite list_lookup_alter_eq. unfold convObj.
      by rewrite lookup_app_r, Nat.sub_diag.
  - split_and!; try done.
    + intros l Hl. by rewrite lookup_app_l.
    + unfold convObj. by rewrite lookup_app_r, Nat.sub_diag.
Qed.

(** X7.  The handshake.  The peer named in the envelope of [startConv], whose
    messaging key pair opens what was wrapped for its registered public key,
    unwraps from that envelope exactly the sender's new key: its room gains
    that key (once), whatever else the room held. *)
Theorem keysContent_unwrapped_by_peer (st : Messaging) (a : Account.t)
    (entry : RegistryEntry.t) (remoteEthAddress : string)
    (peer : Messaging) (b : Account.t) (room : loc) (c : ConvObj.t)
    (onMessage onEncrypted : Callback) :
  account_key peer = remoteEthAddress →
  account_key st ≠ remoteEthAddress →
  account peer = Some b →
  Js.truthy_string (RegistryEntry.pub_key entry) = true →
  Js.truthy_string cryptoRandomString = true →
  ecies_decrypt (Account.privateKey b)
    (ecies_encrypt (RegistryEntry.pub_key entry) cryptoRandomString)
    = Some cryptoRandomString →
  objs peer !! room = Some c →
  let peer' := processContent (keysContent st a entry remoteEthAddress) room
                 onMessage onEncrypted peer in
  ConvObj.keys (deref peer' room) =
    (if decide (cryptoRandomString ∈ ConvObj.keys c)
     then ConvObj.keys c else ConvObj.keys c ++ [cryptoRandomString])
  ∧ emitted peer' = emitted peer.
Proof.
  intros Hpeer Hne Hb Hpub Hkey Hopen Hc peer'. subst peer'.
  unfold keysContent. cbn [processContent]. split; [|done].
  rewrite deref_processKeys by eauto.
  unfold deref. rewrite Hc. cbn [default foldl].
  rewrite (processKey_other peer _ (KeyEntry.mk _ _ (account_key st)))
    by (simpl; by rewrite Hpeer).
  rewrite processKey_recovered. unfold recovered. simpl.
  rewrite decide_True by done.
  unfold ecDecrypt. rewrite Hb, Hpub, Hopen, Hkey. done.
Qed.

End StartConv.

(** ** Sending *)

Section Sending.
Context `{CryptoJS} `{Ecies} `{JSONCodec} `{Web3} `{!World}.

(** X8.  The first message to a new peer.  With nothing in flight, a valid
    address that has a registry entry, a room the engine does not hold, an
    accepted [keys] envelope and a message the schema accepts,
    [sendConvMessage] posts two requests, in this order: the [keys] envelope
    at index 0 and the [msg] envelope, encrypted under the new key, at index
    1.  It returns the room id and clears the send flag; no event is emitted
    and the room table is unchanged. *)
Theorem sendConvMessage_first_message (address remoteEthAddress roomId roomId' : string)
    (entry : RegistryEntry.t) (a : Account.t) (messageObj : MessageArg)
    (st : Messaging) :
  _sending_message st = false →
  isRoomId address = false →
  isAddress address = true →
  toChecksumAddress (Some address) = Some remoteEthAddress →
  isAddress remoteEthAddress = true →
  is_Some (toChecksumAddress (Some remoteEthAddress)) →
  generateRoomId (account_key st) address = Some roomId →
  generateRoomId (account_key st) remoteEthAddress = Some roomId' →
  (getRegisteredKey remoteEthAddress st).1 = Some entry →
  convs st !! roomId' = None →
  account st = Some a →
  let keys_content := keysContent st a entry remoteEthAddress in
  let keys_request :=
    Post.mk roomId' (Js.Number (Js.Int 0)) keys_content
      (account_sign a (stringify roomId' (Js.Number (Js.Int 0)) keys_content)) in
  POST_messages keys_request = true →
  let message :=
    JObj (set_prop "created" (JNum Date_now)
            match messageObj with
            | MessageText s => [("content", JStr s)]
            | MessageObject props => props
            end) in
  validateMessage message = true →
  let messageStr := JSON_stringify message in
  let msg_content :=
    ContentMsg
      (AES_encrypt (messageStr +:+ sha_tag messageStr) cryptoRandomString
         WordArray_random)
      (Base64_stringify WordArray_random) (account_key st) None in
  let msg_request :=
    Post.mk roomId (Js.Number (Js.Int 1)) msg_content
      (account_sign a (stringify roomId (Js.Number (Js.Int 1)) msg_content)) in
  ∃ st',
    sendConvMessage address messageObj st = Return (Some roomId) st'
    ∧ posted st' = posted st ++ [keys_request; msg_request]
    ∧ _sending_message st' = false
    ∧ emitted st' = emitted st
    ∧ convs st' = convs st.
Proof.
  intros Hflag Hroom Haddr Hremote Haddr' [remote' Hremote'] Hid Hid' Hentry Hconv Hacc
    keys_content keys_request Hpost message Hvalid messageStr msg_content msg_request.
  destruct (getRegisteredKey_frame remoteEthAddress st)
    as (Hkey & Hacc1 & Hconvs & Hobjs & Hposted & Hemitted & _ & Hflag1).
  unfold sendConvMessage.
  rewrite Hflag, Hroom, Haddr. cbn [negb]. rewrite Hid. cbv beta iota.
  rewrite Hremote.
  rewrite (startConv_new_room remoteEthAddress roomId' entry a st Hentry Hid' Hconv Hacc).
  fold keys_content. fold keys_request. rewrite Hpost.
  set (st2 := post keys_request _).
  set (st3 := mutate _ _ st2).
  assert (objs st3 !! length (objs st)
          = Some (ConvObj.mk [cryptoRandomString] [] Js.Undefined (Js.Number (Js.Int 1))))
    as Hobj.
  { subst st3 st2. simpl. rewrite list_lookup_alter_eq, Hobjs.
    by rewrite lookup_app_r, Nat.sub_diag. }
  assert (account st3 = Some a) as Hacc3 by (subst st3 st2; simpl; congruence).
  assert (account_key st3 = account_key st) as Hkey3
    by (subst st3 st2; simpl; congruence).
  assert (createEncrypted remoteEthAddress (length (objs st)) messageObj st3
          = Return (Some msg_content) st3) as ->.
  { unfold createEncrypted. rewrite Haddr', Hremote'. cbn [negb].
    fold message. rewrite Hvalid. cbn [negb].
    unfold deref. rewrite Hobj, Hkey3. done. }
  assert (addRoomMsg roomId
            (ConvObj.messageCount (deref (set_sending_message true st3) (length (objs st))))
            msg_content (set_sending_message true st3)
          = Return (POST_messages msg_request)
              (post msg_request (set_sending_message true st3))) as ->.
  { unfold addRoomMsg, deref.
    change (account (set_sending_message true st3)) with (account st3).
    change (objs (set_sending_message true st3)) with (objs st3).
    rewrite Hacc3, Hobj. done. }
  eexists. split; [done|]. subst st3 st2. simpl.
  rewrite Hposted, Hemitted, Hconvs. rewrite <- app_assoc. done.
Qed.

Lemma startConv_sending_message (remoteEthAddress : string) (st : Messaging) :
  _sending_message (state_of (startConv remoteEthAddress st)) = _sending_message st.
Proof.
  unfold startConv, getRegisteredKey, addRoomMsg, alloc.
  repeat case_match; simplify_eq/=; done.
Qed.

(** X9.  The send flag.  While a send is in flight, [sendConvMessage] returns
    [undefined] and does nothing.  Otherwise, whenever it returns (with or
    without a room id), the flag is clear again. *)
Theorem sendConvMessage_flag (roomIdOrAddress : string) (messageObj : MessageArg)
    (st : Messaging) :
  (_sending_message st = true →
   sendConvMessage roomIdOrAddress messageObj st = Return None st)
  ∧ (_sending_message st = false →
     ∀ result st',
       sendConvMessage roomIdOrAddress messageObj st = Return result st' →
       _sending_message st' = false).
Proof.
  unfold sendConvMessage. split.
  - by intros ->.
  - intros Hflag result st'. rewrite Hflag.
    match goal with |- context [match ?r with _ => _ end] =>
      destruct r as [[remote [roomId|]]|] end; [|done..].
    destruct (toChecksumAddress remote) as [remoteEthAddress|]; [|done].
    pose proof (startConv_sending_message remoteEthAddress st) as Hstart.
    destruct (startConv remoteEthAddress st) as [[convObj|] st1|e st1];
      simpl in Hstart; [| |done].
    2:{ intros [= _ <-]. congruence. }
    pose proof (createEncrypted_state remoteEthAddress convObj messageObj st1) as Hst.
    destruct (createEncrypted remoteEthAddress convObj messageObj st1)
      as [[encryptedContent|] st2|e st2]; simpl in Hst; subst st2; [| |done].
    2:{ intros [= _ <-]. congruence. }
    unfold addRoomMsg. simpl. destruct (account st1); [|done].
    by intros [= _ <-].
Qed.

(** X10.  Sending by room id and sending by address are the same call: for
    an engine whose address is in checksummed form and a peer address whose
    checksummed form is stable, [sendConvMessage] on the generated room id
    does exactly what it does on the address. *)
Theorem sendConvMessage_by_room_id (address k2 roomId : string)
    (messageObj : MessageArg) (st : Messaging) :
  isRoomId address = false →
  isAddress address = true →
  toChecksumAddress (Some (account_key st)) = Some (account_key st) →
  toChecksumAddress (Some address) = Some k2 →
  toChecksumAddress (Some k2) = Some k2 →
  isRoomId (account_key st) = false →
  isRoomId k2 = false →
  k2 ≠ account_key st →
  generateRoomId (account_key st) address = Some roomId →
  sendConvMessage roomId messageObj st = sendConvMessage address messageObj st.
Proof.
  intros Hplain Haddr Hme Hk2 Hstable Hd1 Hd2 Hne Hgen.
  destruct (generated_room _ _ _ _ Hme Hk2 Hd1 Hd2)
    as (roomId' & Hgen' & Hroom & _ & Hfind).
  rewrite Hgen in Hgen'. injection Hgen' as <-.
  unfold sendConvMessage. destruct (_sending_message st); [done|].
  rewrite Hroom, Hplain, Haddr, Hgen, (Hfind st eq_refl Hne). cbn [negb].
  by rewrite Hk2, Hstable.
Qed.

End Sending.

(** ** Decoding and ingestion *)

Lemma validateMessage_created (props : list (string * json)) :
  validateMessage (JObj props) = true →
  ∃ n, get_prop "created" props = Some (JNum n).
Proof.
  unfold validateMessage. rewrite !andb_true_iff.
  intros ((((Hhas & _) & _) & Hnum) & _).
  unfold has_prop, when_present in *.
  destruct (get_prop "created" props) as [[| |n| | |]|]; try done. eauto.
Qed.

Section Decoding.
Context `{CryptoJS} `{Ecies} `{JSONCodec}.

Lemma decryptMessage_keys_content (i emsg : string) (keys : list string) (obj : json) :
  decryptMessage_keys i emsg keys = DecryptedContent obj →
  validateMessage obj = true
  ∧ ∃ pre key post buffer,
      keys = pre ++ key :: post
      ∧ Forall (λ k, decryptEmsg i emsg k = None) pre
      ∧ decryptEmsg i emsg key = Some buffer
      ∧ JSON_parse buffer = Some obj.
Proof.
  induction keys as [|k ks IH]; simpl; [done|].
  destruct (decryptEmsg i emsg k) as [buffer|] eqn:Hd.
  - destruct (JSON_parse buffer) as [o|] eqn:Hp; [|done].
    destruct (validateMessage o) eqn:Hv; [|done].
    intros [= <-]. split; [done|]. by exists [], k, ks, buffer.
  - intros Hrest. destruct (IH Hrest) as (Hv & pre & key & post & buf & -> & Hpre & Hk & Hp).
    split; [done|]. exists (k :: pre), key, post, buf. split_and!; try done.
    by constructor.
Qed.

(** X11.  What [decryptMessage] answers.  It answers "could not decrypt"
    exactly when no key of the room passes the tag check on the envelope (in
    particular for a room without keys); the only other error is "invalid
    message object"; and a content it returns is what the first passing key
    yields, parsed, and satisfies the message schema: it is an object with a
    numeric [created]. *)
Theorem decryptMessage_answers (i emsg : string) (convObj : ConvObj.t) :
  (decryptMessage i emsg convObj = DecryptedError COULD_NOT_DECRYPT ↔
   Forall (λ k, decryptEmsg i emsg k = None) (ConvObj.keys convObj))
  ∧ (∀ e, decryptMessage i emsg convObj = DecryptedError e →
          e = COULD_NOT_DECRYPT ∨ e = INVALID_MESSAGE_OBJECT)
  ∧ (∀ obj, decryptMessage i emsg convObj = DecryptedContent obj →
       validateMessage obj = true
       ∧ (∃ props n, obj = JObj props ∧ get_prop "created" props = Some (JNum n))
       ∧ ∃ pre key post buffer,
           ConvObj.keys convObj = pre ++ key :: post
           ∧ Forall (λ k, decryptEmsg i emsg k = None) pre
           ∧ decryptEmsg i emsg key = Some buffer
           ∧ JSON_parse buffer = Some obj).
Proof.
  unfold decryptMessage. split_and!.
  - induction (ConvObj.keys convObj) as [|k ks IH]; simpl.
    + split; [constructor | done].
    + destruct (decryptEmsg i emsg k) as [buffer|] eqn:Hd.
      * split.
        -- destruct (JSON_parse buffer) as [o|]; [|done].
           by destruct (validateMessage o).
        -- intros Hall. apply Forall_cons in Hall as [Hk _]. congruence.
      * rewrite IH. split; [by constructor | by intros [_ ?]%Forall_cons].
  - intros e. induction (ConvObj.keys convObj) as [|k ks IH]; simpl.
    + intros [= <-]. by left.
    + destruct (decryptEmsg i emsg k) as [buffer|]; [|done].
      destruct (JSON_parse buffer) as [o|]; [|intros [= <-]; by right].
      destruct (validateMessage o); [done|]. intros [= <-]. by right.
  - intros obj Hobj.
    destruct (decryptMessage_keys_content _ _ _ _ Hobj) as [Hvalid Hkeys].
    split_and!; [done| |done].
    destruct obj as [| | | | |props]; try done.
    destruct (validateMessage_created props Hvalid) as [n Hn]. eauto.
Qed.

End Decoding.

Section StoredMessages.
Context `{CryptoJS} `{Ecies} `{JSONCodec} `{Web3} `{!World}.

Lemma msg_events_app (es1 es2 : list Event) :
  msg_events (es1 ++ es2) = msg_events es1 ++ msg_events es2.
Proof. unfold msg_events. apply omap_app. Qed.

Lemma messages_valid_same (st st' : Messaging) :
  objs st' = objs st → emitted st' = emitted st →
  messages_valid st → messages_valid st'.
Proof. unfold messages_valid. by intros -> ->. Qed.

Lemma messages_valid_mutate (l : loc) (f : ConvObj.t → ConvObj.t) (st : Messaging) :
  messages_valid st →
  (∀ c, objs st !! l = Some c →
        Forall (λ m, validateMessage (Message.msg m) = true) (ConvObj.messages c) →
        Forall (λ m, validateMessage (Message.msg m) = true) (ConvObj.messages (f c))) →
  messages_valid (mutate l f st).
Proof.
  intros [Hobjs Hev] Hf. split; [|done]. simpl. by apply Forall_alter.
Qed.

Lemma messages_valid_alloc (c : ConvObj.t) (st : Messaging) :
  messages_valid st → ConvObj.messages c = [] → messages_valid (alloc c st).2.
Proof.
  intros [Hobjs Hev] Hc. split; [|done]. simpl.
  apply Forall_app. split; [done|]. constructor; [|done]. rewrite Hc. constructor.
Qed.

Lemma messages_valid_processContent (content : Content) (roomId : string)
    (entry : Entry.t) (convObj : loc) (st : Messaging) :
  messages_valid st →
  messages_valid
    (processContent content convObj (onMessage_cb roomId entry convObj)
       (onEncrypted_cb roomId entry) st).
Proof.
  intros Hinv. destruct content as [a entries|emsg i a to|ty]; simpl; [| |done].
  - by apply messages_valid_mutate.
  - destruct (decryptMessage i emsg (deref st convObj)) as [obj|e] eqn:Hdec.
    + destruct (json_truthy obj); [|done].
      apply decryptMessage_keys_content in Hdec as [Hvalid _].
      unfold onMessage_cb.
      destruct (messages_valid_mutate convObj
                  (ConvObj.push_message (toMessage obj roomId entry a)) st Hinv)
        as [Hobjs Hev].
      { intros c _ Hc. simpl. apply Forall_app. split; [done|]. by constructor. }
      split; [done|]. simpl. rewrite msg_events_app. apply Forall_app.
      split; [done|]. by constructor.
    + destruct (String.eqb e COULD_NOT_DECRYPT);
        [|by destruct (String.eqb e INVALID_MESSAGE_OBJECT)].
      destruct Hinv as [Hobjs Hev]. split; [done|]. simpl.
      rewrite msg_events_app. simpl. by rewrite app_nil_r.
Qed.

Lemma messages_valid_forEach (roomId : string) (convObj : loc)
    (messages : list Entry.t) :
  ∀ st, messages_valid st →
        messages_valid (state_of (getRoom_forEach roomId convObj messages st)).
Proof.
  induction messages as [|entry rest IH]; intros st Hinv; simpl; [done|].
  destruct (Entry.content entry) as [content|]; [|done].
  apply IH. apply messages_valid_mutate; [|done].
  by apply messages_valid_processContent.
Qed.

Lemma messages_valid_getRoom_begin (roomId : string) (st : Messaging) :
  messages_valid st → messages_valid (getRoom_begin roomId st).2.
Proof.
  intros Hinv. unfold getRoom_begin. simpl.
  by apply (messages_valid_alloc (ConvObj.mk [] [] Js.Undefined Js.Undefined) st).
Qed.

Lemma messages_valid_onMessageUpdate (entry : Entry.t) (st : Messaging) :
  messages_valid st → messages_valid (onMessageUpdate entry st).
Proof.
  intros Hinv. unfold onMessageUpdate.
  destruct (Entry.content entry) as [content|]; [|done].
  destruct (Entry.conversationId entry) as [conversationId|]; [|done].
  destruct (Js.truthy_string conversationId); [|done].
  destruct (convs st !! conversationId) as [convObj|].
  - destruct (Js.loose_neqb _ _).
    + apply messages_valid_mutate; [|done]. by apply messages_valid_processContent.
    + by apply messages_valid_getRoom_begin.
  - by apply messages_valid_getRoom_begin.
Qed.

Lemma messages_valid_resume (t : Task) (st : Messaging) :
  messages_valid st → messages_valid (resume t st).1.
Proof.
  intros [Hobjs Hev].
  destruct (resume_frame t st) as (_ & _ & Hemitted & _ & _ & Hcases).
  split; [|by rewrite Hemitted].
  destruct Hcases as [->|[->|(convObj & key & caller & _ & ->)]].
  - done.
  - apply Forall_app. split; [done|]. repeat constructor.
  - by apply Forall_alter.
Qed.

(** X12.  Only schema-valid messages are ever surfaced: along any run of the
    engine (handlers, calls suspended at their [await]s and resumed in any
    order), if the messages held in rooms and announced by [msg] events
    satisfy the message schema at the start, they do so at the end.  In
    particular what [getAllMessages] returns is valid. *)
Theorem messages_stay_valid (c c' : Config) :
  rtc step c c' →
  messages_valid (engine c) →
  messages_valid (engine c')
  ∧ ∀ remoteEthAddress messages,
      getAllMessages remoteEthAddress (engine c') = Some messages →
      Forall (λ m, validateMessage (Message.msg m) = true) messages.
Proof.
  intros Hsteps Hinv.
  assert (messages_valid (engine c')) as Hinv'.
  { induction Hsteps as [c|c1 c2 c3 Hstep _ IH]; [done|].
    apply IH. destruct (call_engine (engine c1)) as (Hstart & Hsend & Hoob & Hprobe).
    destruct Hstep; simpl.
    - by apply messages_valid_onMessageUpdate.
    - by apply messages_valid_getRoom_begin.
    - unfold getRoom_resume. apply messages_valid_forEach.
      by apply (messages_valid_same (engine c)).
    - by rewrite Hstart.
    - by rewrite Hsend.
    - by rewrite Hoob.
    - by rewrite Hprobe.
    - by apply messages_valid_resume. }
  split; [done|].
  intros remote messages. unfold getAllMessages.
  destruct (generateRoomId (account_key (engine c')) remote) as [roomId|]; [|done].
  destruct (convs (engine c') !! roomId) as [convObj|]; intros [= <-]; [|constructor].
  unfold deref. destruct (objs (engine c') !! convObj) as [room|] eqn:Hc; [|constructor].
  destruct Hinv' as [Hobjs _]. rewrite Forall_lookup in Hobjs. by apply (Hobjs convObj).
Qed.

End StoredMessages.

(** ** What a bulk load leaves *)

Section LoadedRoom.
Context `{CryptoJS} `{Ecies} `{JSONCodec}.

(** One entry: at most one event, filed under the entry's index; a [msg]
    event goes with the same message stored in the room. *)
Lemma ingest_entry_events (roomId : string) (entry : Entry.t) (content : Content)
    (convObj : loc) (st : Messaging) :
  let st1 := advance entry convObj
               (processContent content convObj (onMessage_cb roomId entry convObj)
                  (onEncrypted_cb roomId entry) st) in
  is_Some (objs st !! convObj) →
  is_Some (objs st1 !! convObj)
  ∧ ∃ new,
      emitted st1 = emitted st ++ new
      ∧ ConvObj.messages (deref st1 convObj)
        = ConvObj.messages (deref st convObj) ++ msg_events new
      ∧ (new = []
         ∨ ∃ e, new = [e]
                ∧ Message.index (event_message e) = Entry.conversationIndex entry
                ∧ Message.room_id (event_message e) = roomId
                ∧ Message.hash (event_message e) = getMessageId roomId entry).
Proof.
  intros st1 Hc. subst st1. unfold advance.
  destruct content as [a entries|emsg i a to|ty]; simpl processContent.
  - unfold processKeys. split; [by do 2 apply is_Some_mutate|].
    exists []. rewrite !app_nil_r. split_and!; [done| |by left].
    rewrite !deref_mutate; [done | done | by apply is_Some_mutate].
  - destruct (decryptMessage i emsg (deref st convObj)) as [obj|e];
      [destruct (json_truthy obj)|
       destruct (String.eqb e COULD_NOT_DECRYPT);
         [|destruct (String.eqb e INVALID_MESSAGE_OBJECT)]].
    + unfold onMessage_cb. split; [by do 2 apply is_Some_mutate|].
      exists [EventMsg (toMessage obj roomId entry a)]. split_and!; [done| |].
      * rewrite deref_mutate by (by apply (is_Some_mutate _ _ st)).
        simpl. unfold deref. simpl. rewrite list_lookup_alter_eq.
        by destruct Hc as [c ->].
      * right. eexists. by split_and!.
    + split; [by apply is_Some_mutate|]. exists []. rewrite !app_nil_r.
      split_and!; [done| |by left]. by rewrite deref_mutate.
    + unfold onEncrypted_cb. split; [by apply (is_Some_mutate _ _ (emit _ st))|].
      exists [EventEmsg (toMessage (JStr emsg) roomId entry a)]. split_and!; [done| |].
      * rewrite (deref_mutate _ _ (emit _ st)) by done. simpl. by rewrite app_nil_r.
      * right. eexists. by split_and!.
    + split; [by apply is_Some_mutate|]. exists []. rewrite !app_nil_r.
      split_and!; [done| |by left]. by rewrite deref_mutate.
    + split; [by apply is_Some_mutate|]. exists []. rewrite !app_nil_r.
      split_and!; [done| |by left]. by rewrite deref_mutate.
  - split; [by apply is_Some_mutate|]. exists []. rewrite !app_nil_r.
    split_and!; [done| |by left]. by rewrite deref_mutate.
Qed.

Lemma getRoom_forEach_events (roomId : string) (convObj : loc)
    (messages : list Entry.t) :
  ∀ st st',
    is_Some (objs st !! convObj) →
    getRoom_forEach roomId convObj messages st = Return () st' →
    ∃ new,
      emitted st' = emitted st ++ new
      ∧ ConvObj.messages (deref st' convObj)
        = ConvObj.messages (deref st convObj) ++ msg_events new
      ∧ (Message.index ∘ event_message) <$> new
          `sublist_of` Entry.conversationIndex <$> messages
      ∧ Forall (λ e, Message.room_id (event_message e) = roomId
                     ∧ Message.hash (event_message e)
                       = roomId +:+ "." +:+ Js.to_string (Message.index (event_message e)))
          new.
Proof.
  induction messages as [|entry rest IH]; intros st st' Hc; simpl.
  - intros [= <-]. exists []. rewrite !app_nil_r. split_and!; try done.
  - destruct (Entry.content entry) as [content|]; [|done]. intros Hrest.
    destruct (ingest_entry_events roomId entry content convObj st Hc)
      as (Hc1 & new1 & Hev1 & Hmsg1 & Hnew1).
    destruct (IH _ _ Hc1 Hrest) as (new & Hev & Hmsg & Hsub & Hall).
    exists (new1 ++ new). split_and!.
    + by rewrite Hev, Hev1, app_assoc.
    + unfold msg_events in *. by rewrite Hmsg, Hmsg1, omap_app, app_assoc.
    + destruct Hnew1 as [->|(e & -> & Hidx & _)]; simpl.
      * by apply sublist_cons.
      * rewrite Hidx. by apply sublist_skip.
    + apply Forall_app. split; [|done].
      destruct Hnew1 as [->|(e & -> & Hidx & Hroom & Hhash)]; [constructor|].
      constructor; [|constructor]. split; [done|]. by rewrite Hhash, Hidx.
Qed.

Lemma getRoom_replaces_room_aux (roomId : string) (fetched : list Entry.t)
    (st st' : Messaging) :
  getRoom roomId fetched st = Return () st' →
  convs st' !! roomId = Some (length (objs st))
  ∧ ∃ room, objs st' !! length (objs st) = Some room.
Proof.
  intros Hload.
  unfold getRoom, getRoom_begin, getRoom_resume, alloc in Hload. simpl in Hload.
  set (st1 := set_fetching _ (set_fetching _ (set_convs _ (set_objs _ st)))) in Hload.
  assert (objs st1 !! length (objs st)
          = Some (ConvObj.mk [] [] Js.Undefined Js.Undefined)) as Hnew.
  { subst st1. simpl. by rewrite lookup_app_r, Nat.sub_diag by done. }
  destruct (getRoom_forEach_spec roomId _ fetched st1 st' (mk_is_Some _ _ Hnew) Hload)
    as ([room Hroom] & Hconvs & _).
  split; [|eauto]. rewrite Hconvs. subst st1. simpl. apply lookup_insert_eq.
Qed.

(** X13.  After a bulk load that ran to its end, the room's message list is
    exactly the sequence of [msg] events the load emitted; every event of
    the load ([msg] or [emsg]) carries the room id, the index of its entry
    and the id [roomId.index]; and the events come in the order of the
    fetched log, at most one per entry. *)
Theorem getRoom_messages_are_its_events (roomId : string) (fetched : list Entry.t)
    (st st' : Messaging) :
  getRoom roomId fetched st = Return () st' →
  ∃ new room,
    emitted st' = emitted st ++ new
    ∧ convs st' !! roomId = Some (length (objs st))
    ∧ objs st' !! length (objs st) = Some room
    ∧ ConvObj.messages room = msg_events new
    ∧ (Message.index ∘ event_message) <$> new
        `sublist_of` Entry.conversationIndex <$> fetched
    ∧ Forall (λ e, Message.room_id (event_message e) = roomId
                   ∧ Message.hash (event_message e)
                     = roomId +:+ "." +:+ Js.to_string (Message.index (event_message e)))
        new.
Proof.
  intros Hload.
  destruct (getRoom_replaces_room_aux roomId fetched st st' Hload)
    as (Hconvs & room & Hroom).
  unfold getRoom, getRoom_begin, getRoom_resume, alloc in Hload. simpl in Hload.
  set (st1 := set_fetching _ (set_fetching _ (set_convs _ (set_objs _ st)))) in Hload.
  assert (objs st1 !! length (objs st)
          = Some (ConvObj.mk [] [] Js.Undefined Js.Undefined)) as Hnew.
  { subst st1. simpl. by rewrite lookup_app_r, Nat.sub_diag by done. }
  destruct (getRoom_forEach_events roomId _ fetched st1 st' (mk_is_Some _ _ Hnew) Hload)
    as (new & Hev & Hmsg & Hsub & Hall).
  exists new, room. split_and!; try done.
  unfold deref in Hmsg. by rewrite Hroom, Hnew in Hmsg.
Qed.

End LoadedRoom.

Lemma sorted_below_last (zs : list Z) (z_last : Z) :
  StronglySorted Z.le zs → last zs = Some z_last → Forall (λ z, z ≤ z_last) zs.
Proof.
  induction 1 as [|a l Hsorted IH Hall]; intros Hlast; [constructor|].
  destruct l as [|b l].
  - injection Hlast as ->. by repeat constructor.
  - rewrite last_cons_cons in Hlast. constructor; [|by apply IH].
    rewrite Forall_forall in Hall. apply Hall.
    apply last_Some in Hlast as [l' ->]. apply elem_of_app. right. by left.
Qed.

Section Counters.
Context `{CryptoJS} `{Ecies} `{JSONCodec} `{Web3} `{!World}.

Lemma getRoom_forEach_account_key (roomId : string) (convObj : loc)
    (messages : list Entry.t) :
  ∀ st, account_key (state_of (getRoom_forEach roomId convObj messages st))
        = account_key st.
Proof.
  induction messages as [|entry rest IH]; intros st; simpl; [done|].
  destruct (Entry.content entry) as [content|]; [|done].
  rewrite IH. simpl.
  destruct content as [a entries|emsg i a to|ty]; simpl; try done.
  destruct (decryptMessage i emsg (deref st convObj)) as [obj|e].
  - by destruct (json_truthy obj).
  - destruct (String.eqb e COULD_NOT_DECRYPT); [done|].
    by destruct (String.eqb e INVALID_MESSAGE_OBJECT).
Qed.


(** X15.  A live frame never posts anything and never touches the registry
    cache, the account or the send flag.  A frame without [content] or
    without a non-empty [conversationId] is ignored altogether.  A frame for
    a room the engine does not hold starts a bulk load of that room and
    nothing else: its content is not processed, no event is emitted, the
    room's new object is empty. *)
Theorem onMessageUpdate_effects (entry : Entry.t) (st : Messaging) :
  (posted (onMessageUpdate entry st) = posted st
   ∧ _registryCache (onMessageUpdate entry st) = _registryCache st
   ∧ account (onMessageUpdate entry st) = account st
   ∧ account_key (onMessageUpdate entry st) = account_key st
   ∧ _sending_message (onMessageUpdate entry st) = _sending_message st)
  ∧ (Entry.content entry = None
     ∨ Entry.conversationId entry = None
     ∨ Entry.conversationId entry = Some "" →
     onMessageUpdate entry st = st)
  ∧ (∀ content conversationId,
       Entry.content entry = Some content →
       Entry.conversationId entry = Some conversationId →
       conversationId ≠ "" →
       convs st !! conversationId = None →
       let st' := onMessageUpdate entry st in
       emitted st' = emitted st
       ∧ fetching st' = fetching st ++ [(conversationId, length (objs st))]
       ∧ convs st' = <[conversationId := length (objs st)]> (convs st)
       ∧ objs st' = objs st ++ [ConvObj.mk [] [] Js.Undefined Js.Undefined]).
Proof.
  split; [|split].
  - unfold onMessageUpdate.
    destruct (Entry.content entry) as [content|]; [|done].
    destruct (Entry.conversationId entry) as [conversationId|]; [|done].
    destruct (Js.truthy_string conversationId); [|done].
    destruct (convs st !! conversationId) as [convObj|]; [|done].
    destruct (Js.loose_neqb _ _); [|done].
    destruct content as [a entries|emsg i a to|ty]; simpl; try done.
    destruct (decryptMessage i emsg (deref st convObj)) as [obj|e].
    + by destruct (json_truthy obj).
    + destruct (String.eqb e COULD_NOT_DECRYPT); [done|].
      by destruct (String.eqb e INVALID_MESSAGE_OBJECT).
  - unfold onMessageUpdate. intros [->|[->| ->]]; [done| |].
    + by destruct (Entry.content entry).
    + by destruct (Entry.content entry).
  - intros content conversationId Hc Hid Hne Hroom st'. subst st'.
    unfold onMessageUpdate. rewrite Hc, Hid, Hroom.
    by destruct conversationId.
Qed.

(** X16.  What the message schema lets through.  A property the schema does
    not name never changes the verdict.  Once [created] is injected, the
    verdict depends only on [content] (a string, when present), [media] (an
    array, when present) and [decryption] (when present); a plain text is
    therefore always accepted, and [createEncrypted] returns [undefined]
    only for an object whose [content], [media] or [decryption] breaks the
    schema. *)
Theorem validateMessage_tolerance :
  (∀ k v props,
     k ≠ "created" → k ≠ "content" → k ≠ "media" → k ≠ "decryption" →
     validateMessage (JObj (set_prop k v props)) = validateMessage (JObj props))
  ∧ (∀ n props,
       validateMessage (JObj (set_prop "created" (JNum n) props))
       = when_present "content" props is_string
         && when_present "media" props is_array
         && when_present "decryption" props validate_decryption)
  ∧ (∀ address convObj text st st',
       createEncrypted address convObj (MessageText text) st ≠ Return None st')
  ∧ (∀ address convObj props st st',
       createEncrypted address convObj (MessageObject props) st = Return None st' →
       when_present "content" props is_string = false
       ∨ when_present "media" props is_array = false
       ∨ when_present "decryption" props validate_decryption = false).
Proof.
  assert (∀ n props,
            validateMessage (JObj (set_prop "created" (JNum n) props))
            = when_present "content" props is_string
              && when_present "media" props is_array
              && when_present "decryption" props validate_decryption) as Hcreated.
  { intros n props. unfold validateMessage, has_prop, when_present.
    rewrite get_prop_set_prop.
    rewrite !(get_prop_set_prop_ne "created") by done.
    simpl. by rewrite andb_true_r. }
  split_and!.
  - intros k v props Hk1 Hk2 Hk3 Hk4. unfold validateMessage, has_prop, when_present.
    by rewrite !(get_prop_set_prop_ne k) by done.
  - done.
  - intros address convObj text st st'. unfold createEncrypted.
    destruct (negb (isAddress address)); [done|].
    destruct (toChecksumAddress (Some address)); [|done].
    rewrite Hcreated. simpl.
    by destruct (ConvObj.keys (deref st convObj) !! 0%nat).
  - intros address convObj props st st'. unfold createEncrypted.
    destruct (negb (isAddress address)); [done|].
    destruct (toChecksumAddress (Some address)); [|done].
    rewrite Hcreated.
    destruct (when_present "content" props is_string); [|auto].
    destruct (when_present "media" props is_array); [|auto].
    destruct (when_present "decryption" props validate_decryption); [|auto].
    simpl. by destruct (ConvObj.keys (deref st convObj) !! 0%nat).
Qed.

(** X17.  The probe and the handshake agree: [canReceiveMessages] answers
    [false] exactly when [startConv] on the checksummed address gives up
    with [undefined]; its answer leaves everything but the registry cache
    as it was. *)
Theorem canReceiveMessages_agrees (remoteEthAddress address : string)
    (st : Messaging) :
  toChecksumAddress (Some remoteEthAddress) = Some address →
  ∃ answer,
    canReceiveMessages remoteEthAddress st
      = Return answer (getRegisteredKey address st).2
    ∧ (answer = false ↔ startConv address st = Return None st)
    ∧ (answer = false → (getRegisteredKey address st).2 = st)
    ∧ posted (getRegisteredKey address st).2 = posted st
    ∧ objs (getRegisteredKey address st).2 = objs st
    ∧ convs (getRegisteredKey address st).2 = convs st.
Proof.
  intros Haddr.
  destruct (getRegisteredKey_frame address st)
    as (_ & _ & Hconvs & Hobjs & Hposted & _).
  unfold canReceiveMessages. rewrite Haddr.
  destruct (getRegisteredKey address st) as [entry st1] eqn:Hreg. simpl in *.
  eexists. split; [done|]. split_and!; try done.
  - destruct entry as [e|].
    + rewrite bool_decide_eq_true_2 by eauto. split; [done|].
      unfold startConv. rewrite Hreg. intros Hnone. exfalso. revert Hnone.
      unfold addRoomMsg, alloc. repeat case_match; simplify_eq/=; done.
    + rewrite bool_decide_eq_false_2 by (by intros [? ?]). split; [|done].
      intros _. apply startConv_None. by rewrite Hreg.
  - destruct entry as [e|].
    + by rewrite bool_decide_eq_true_2 by eauto.
    + intros _. pose proof (getRegisteredKey_None address st) as Hn.
      rewrite Hreg in Hn. specialize (Hn eq_refl). by injection Hn.
Qed.

End Counters.

(** ** Delivery *)

Section Delivery.
Context `{CryptoJS} `{Ecies} `{JSONCodec} `{Web3} `{!World}.

Lemma decryptMessage_could_not_iff (i emsg : string) (keys : list string) :
  decryptMessage_keys i emsg keys = DecryptedError COULD_NOT_DECRYPT ↔
  Forall (λ k, decryptEmsg i emsg k = None) keys.
Proof.
  induction keys as [|k ks IH]; simpl.
  - split; [constructor | done].
  - destruct (decryptEmsg i emsg k) as [buffer|] eqn:Hd.
    + split.
      * destruct (JSON_parse buffer) as [o|]; [|done].
        by destruct (validateMessage o).
      * intros Hall. apply Forall_cons in Hall as [Hk _]. congruence.
    + rewrite IH. split; [by constructor | by intros [_ ?]%Forall_cons].
Qed.

(** X18.  Live delivery into a room the engine holds.  A [msg] envelope that
    a room key opens into a valid message is announced by one [msg] event
    and appended to the room's messages, under the entry's index and the id
    [roomId.index]; an envelope no room key opens is announced by one [emsg]
    event carrying the ciphertext as it came, and the room's messages stay
    as they were.  The room's keys are untouched either way. *)
Theorem onMessageUpdate_delivers (entry : Entry.t) (emsg i address : string)
    (to : option string) (conversationId : string) (convObj : loc) (c : ConvObj.t)
    (st : Messaging) :
  Entry.content entry = Some (ContentMsg emsg i address to) →
  Entry.conversationId entry = Some conversationId →
  conversationId ≠ "" →
  convs st !! conversationId = Some convObj →
  objs st !! convObj = Some c →
  let st' := onMessageUpdate entry st in
  let message payload :=
    Message.mk payload conversationId (Entry.conversationIndex entry) address
      (conversationId +:+ "." +:+ Js.to_string (Entry.conversationIndex entry)) in
  (∀ obj,
     decryptMessage i emsg c = DecryptedContent obj →
     emitted st' = emitted st ++ [EventMsg (message obj)]
     ∧ ConvObj.messages (deref st' convObj) = ConvObj.messages c ++ [message obj]
     ∧ ConvObj.keys (deref st' convObj) = ConvObj.keys c)
  ∧ (Forall (λ k, decryptEmsg i emsg k = None) (ConvObj.keys c) →
     emitted st' = emitted st ++ [EventEmsg (message (JStr emsg))]
     ∧ ConvObj.messages (deref st' convObj) = ConvObj.messages c
     ∧ ConvObj.keys (deref st' convObj) = ConvObj.keys c).
Proof.
  intros Hc Hid Hne Hroom Hobj st' message. subst st'.
  assert (Js.truthy_string conversationId = true) as Ht by (by destruct conversationId).
  rewrite (onMessageUpdate_known entry _ conversationId convObj st Hc Hid Ht Hroom).
  assert (deref st convObj = c) as Hderef by (unfold deref; by rewrite Hobj).
  unfold advance. cbn [processContent]. rewrite Hderef. split.
  - intros obj Hdec. rewrite Hdec.
    assert (json_truthy obj = true) as ->.
    { apply decryptMessage_keys_content in Hdec as [Hvalid _].
      by destruct obj. }
    unfold onMessage_cb.
    rewrite deref_mutate by (by apply (is_Some_mutate _ _ st)).
    split; [done|]. simpl. unfold deref. simpl.
    by rewrite list_lookup_alter_eq, Hobj.
  - intros Hall. apply decryptMessage_could_not_iff in Hall.
    unfold decryptMessage. rewrite Hall, String.eqb_refl. unfold onEncrypted_cb.
    rewrite deref_mutate by (simpl; eauto).
    split; [done|]. simpl. unfold deref. simpl. by rewrite Hobj.
Qed.

End Delivery.

(** ** From one engine to the other *)

Section EndToEnd.
Context `{CryptoJS} `{Ecies} `{JSONCodec} `{Web3} `{!World}.

Lemma lookup_advance (entry : Entry.t) (l : loc) (st : Messaging) :
  objs (advance entry l st) !! l =
    (λ c, ConvObj.set_messageCount
            (Js.add (Entry.conversationIndex entry) (Js.Number (Js.Int 1)))
            (ConvObj.set_lastConversationIndex (Entry.conversationIndex entry) c))
    <$> objs st !! l.
Proof. unfold advance, mutate. simpl. by rewrite list_lookup_alter_eq. Qed.

Lemma lookup_processKeys (keys : list KeyEntry.t) (l : loc) (st : Messaging) :
  objs (processKeys keys l st) !! l =
    (λ c, ConvObj.set_keys (foldl (processKey st) (ConvObj.keys c) keys) c)
    <$> objs st !! l.
Proof. unfold processKeys, mutate. simpl. by rewrite list_lookup_alter_eq. Qed.

(** X19.  What the sender posts for a first message, the peer reads.  Let
    the server's log of a room be the two envelopes [sendConvMessage] posts
    to a new peer: the [keys] envelope of [startConv] at index 0 and the
    [msg] envelope encrypted under the new key at index 1.  The peer, whose
    messaging key pair opens what was wrapped for its registered public key,
    loads the room in full: its new conversation object holds exactly the
    sender's key and exactly the sender's message (with sender address, index
    1 and id [roomId.1]), the counters stand at 1 and 2, and one [msg] event
    with that message is emitted. *)
Theorem first_message_reaches_peer `{!CryptoJSLaws}
    (st : Messaging) (a : Account.t) (entry : RegistryEntry.t)
    (remoteEthAddress roomId : string) (message : json)
    (peer : Messaging) (b : Account.t) :
  account_key peer = remoteEthAddress →
  account_key st ≠ remoteEthAddress →
  account peer = Some b →
  Js.truthy_string (RegistryEntry.pub_key entry) = true →
  Js.truthy_string cryptoRandomString = true →
  ecies_decrypt (Account.privateKey b)
    (ecies_encrypt (RegistryEntry.pub_key entry) cryptoRandomString)
    = Some cryptoRandomString →
  validateMessage message = true →
  JSON_parse (JSON_stringify message) = Some message →
  JSON_stringify message ≠ "" →
  let keys_content := keysContent st a entry remoteEthAddress in
  let messageStr := JSON_stringify message in
  let msg_content :=
    ContentMsg
      (AES_encrypt (messageStr +:+ sha_tag messageStr) cryptoRandomString
         WordArray_random)
      (Base64_stringify WordArray_random) (account_key st) None in
  let log :=
    [ Entry.mk (Some keys_content) (Some roomId) (Js.Number (Js.Int 0));
      Entry.mk (Some msg_content) (Some roomId) (Js.Number (Js.Int 1)) ] in
  let delivered :=
    Message.mk message roomId (Js.Number (Js.Int 1)) (account_key st)
      (roomId +:+ ".1") in
  ∃ peer' room,
    getRoom roomId log peer = Return () peer'
    ∧ convs peer' !! roomId = Some room
    ∧ objs peer' !! room =
        Some (ConvObj.mk [cryptoRandomString] [delivered]
                (Js.Number (Js.Int 1)) (Js.Number (Js.Int 2)))
    ∧ emitted peer' = emitted peer ++ [EventMsg delivered].
Proof.
  intros Hpeer Hne Hb Hpub Hkey Hopen Hvalid Hjson Htext
    keys_content messageStr msg_content log delivered.
  unfold getRoom, getRoom_begin, alloc, getRoom_resume.
  set (room := length (objs peer)).
  set (st1 := set_fetching _ (set_fetching _ (set_convs _ (set_objs _ peer)))).
  assert (objs st1 !! room = Some (ConvObj.mk [] [] Js.Undefined Js.Undefined)) as Hst1.
  { subst st1 room. simpl. by rewrite lookup_app_r, Nat.sub_diag. }
  assert (convs st1 !! roomId = Some room) as Hconvs.
  { subst st1. simpl. by rewrite lookup_insert_eq. }
  assert (emitted st1 = emitted peer) as Hemitted by done.
  cbn [log getRoom_forEach Entry.content].
  set (st2 := advance _ room (processContent keys_content room _ _ st1)).
  assert (objs st2 !! room =
            Some (ConvObj.mk [cryptoRandomString] []
                    (Js.Number (Js.Int 0)) (Js.Number (Js.Int 1)))) as Hst2.
  { subst st2. rewrite lookup_advance. unfold keys_content, keysContent.
    cbn [processContent]. rewrite lookup_processKeys, Hst1. cbn [fmap option_fmap option_map].
    unfold ConvObj.set_keys. cbn [foldl ConvObj.keys].
    rewrite (processKey_other st1 _ (KeyEntry.mk _ _ (account_key st)))
      by (simpl; by rewrite Hpeer).
    rewrite processKey_recovered. unfold recovered. simpl.
    rewrite decide_True by done.
    unfold ecDecrypt. simpl. rewrite Hb, Hpub, Hopen, Hkey. done. }
  assert (emitted st2 = emitted peer) as Hemitted2 by done.
  assert (convs st2 = convs st1) as Hconvs2 by done.
  clearbody st2. clear Hst1.
  assert (decryptMessage (Base64_stringify WordArray_random)
            (AES_encrypt (messageStr +:+ sha_tag messageStr) cryptoRandomString
               WordArray_random) (deref st2 room) = DecryptedContent message) as Hdec.
  { unfold deref, decryptMessage. rewrite Hst2. simpl.
    unfold messageStr. rewrite decryptEmsg_encrypt by done.
    by rewrite Hjson, Hvalid. }
  unfold msg_content at 2. cbn [processContent]. rewrite Hdec.
  assert (json_truthy message = true) as ->.
  { apply decryptMessage_keys_content in Hdec as [Hv _]. by destruct message. }
  eexists _, room. split; [reflexivity|]. split_and!.
  - simpl. by rewrite Hconvs2.
  - rewrite lookup_advance. unfold onMessage_cb. simpl.
    rewrite list_lookup_alter_eq, Hst2. done.
  - simpl. by rewrite Hemitted2.
Qed.

End EndToEnd.

(** ** The further properties on concrete inputs *)

Module MoreExamples.
Import Toy Scenario.
#[local] Existing Instances cryptojs ecies jsoncodec web3 world Examples.laws.

(** The room of Alice and Bob resolves to Bob in Alice's engine. *)
Lemma generateRoomId_resolves_witness :
  find_remote established (getRecipients room) = Some bob
  ∧ bob ∈ getMyConvs established.
Proof.
  assert (toChecksumAddress (Some alice) = Some alice) as Ha by (vm_compute; reflexivity).
  assert (toChecksumAddress (Some bob) = Some bob) as Hb by (vm_compute; reflexivity).
  assert (isRoomId alice = false) as Hda by (vm_compute; reflexivity).
  assert (isRoomId bob = false) as Hdb by (vm_compute; reflexivity).
  destruct (generateRoomId_resolves alice bob alice bob Ha Hb Hda Hdb)
    as (roomId & Hgen & _ & _ & Hst).
  assert (roomId = room) as -> by (vm_compute in Hgen; by injection Hgen).
  destruct (Hst established eq_refl) as [Hfind Hviews]; [discriminate|].
  split; [exact Hfind|].
  by destruct (Hviews 0%nat eq_refl eq_refl) as [Hin _].
Defined.

Lemma getMessageId_inj_witness :
  room = room ∧ 2 = 2.
Proof.
  assert (occurs "." room = false) as Hdot by (vm_compute; reflexivity).
  apply (getMessageId_inj room room
           (Entry.mk None (Some room) (Js.Number (Js.Int 2)))
           (Entry.mk None (Some room) (Js.Number (Js.Int 2))) 2 2);
    done.
Defined.

(** Bob's entry, once looked up, is served from the cache although the
    second server knows nobody. *)
Lemma getRegisteredKey_cached_witness :
  @getRegisteredKey cryptojs empty_world bob (getRegisteredKey bob fresh).2
  = (Some bob_entry, (getRegisteredKey bob fresh).2).
Proof.
  destruct (getRegisteredKey_cached world empty_world bob fresh) as [Hhit _].
  assert (getRegisteredKey bob fresh = (Some bob_entry, (getRegisteredKey bob fresh).2))
    as Hfound by (vm_compute; reflexivity).
  by destruct (Hhit bob_entry (getRegisteredKey bob fresh).2 Hfound) as (_ & Hcached & _).
Defined.

Lemma startConv_established_witness :
  posted (state_of (startConv bob established)) = [].
Proof.
  assert (is_Some (getRegisteredKey bob established).1) as Hentry
    by (eexists; vm_compute; reflexivity).
  assert (generateRoomId (account_key established) bob = Some room) as Hroom
    by (vm_compute; reflexivity).
  assert (convs established !! room = Some 0%nat) as Hconv by reflexivity.
  assert (ConvObj.keys (deref established 0%nat) ≠ []) as Hkeys by discriminate.
  by destruct (startConv_established bob room 0%nat established Hentry Hroom Hconv Hkeys)
    as (_ & Hposted & _).
Defined.

Lemma startConv_seeds_new_room_witness :
  ∃ st', startConv bob fresh = Return (Some 0%nat) st'
         ∧ objs st' !! 0%nat
           = Some (ConvObj.mk ["k1"] [] Js.Undefined (Js.Number (Js.Int 1)))
         ∧ convs st' = ∅.
Proof.
  assert ((getRegisteredKey bob fresh).1 = Some bob_entry) as Hentry
    by (vm_compute; reflexivity).
  assert (generateRoomId (account_key fresh) bob = Some room) as Hroom
    by (vm_compute; reflexivity).
  assert (convs fresh !! room = None) as Hconv by (vm_compute; reflexivity).
  destruct (startConv_seeds_new_room bob room bob_entry alice_account fresh
              Hentry Hroom Hconv eq_refl)
    as (st' & Hstart & _ & Hconvs & _ & _ & Hobj & _).
  exists st'. split_and!; [exact Hstart | exact Hobj | exact Hconvs].
Defined.

(** Bob unwraps k1 from the envelope Alice's [startConv] posts. *)
Lemma keysContent_unwrapped_by_peer_witness :
  ConvObj.keys
    (deref (processContent (keysContent fresh alice_account bob_entry bob) 0%nat
              (λ _ _ st, st) (λ _ _ st, st) bob_engine) 0%nat)
  = ["k1"].
Proof.
  assert (account_key fresh ≠ bob) as Hne by discriminate.
  assert (Js.truthy_string (RegistryEntry.pub_key bob_entry) = true) as Hpub
    by reflexivity.
  assert (Js.truthy_string cryptoRandomString = true) as Hkey by reflexivity.
  assert (ecies_decrypt (Account.privateKey bob_account)
            (ecies_encrypt (RegistryEntry.pub_key bob_entry) cryptoRandomString)
          = Some cryptoRandomString) as Hopen by (vm_compute; reflexivity).
  by destruct (keysContent_unwrapped_by_peer fresh alice_account bob_entry bob
                 bob_engine bob_account 0%nat
                 (ConvObj.mk [] [] Js.Undefined Js.Undefined)
                 (λ _ _ st, st) (λ _ _ st, st)
                 eq_refl Hne eq_refl Hpub Hkey Hopen eq_refl) as [Hkeys _].
Defined.

Lemma sendConvMessage_first_message_witness :
  ∃ st', sendConvMessage bob (MessageText "hi") fresh = Return (Some room) st'
         ∧ length (posted st') = 2%nat.
Proof.
  assert (generateRoomId (account_key fresh) bob = Some room) as Hroom
    by (vm_compute; reflexivity).
  assert ((getRegisteredKey bob fresh).1 = Some bob_entry) as Hentry
    by (vm_compute; reflexivity).
  assert (is_Some (toChecksumAddress (Some bob))) as Hsome
    by (eexists; vm_compute; reflexivity).
  assert (isRoomId bob = false) as Hplain by (vm_compute; reflexivity).
  assert (isAddress bob = true) as Haddr by (vm_compute; reflexivity).
  assert (toChecksumAddress (Some bob) = Some bob) as Hb by (vm_compute; reflexivity).
  assert (convs fresh !! room = None) as Hconv by (vm_compute; reflexivity).
  assert (POST_messages
            (Post.mk room (Js.Number (Js.Int 0))
               (keysContent fresh alice_account bob_entry bob)
               (account_sign alice_account
                  (stringify room (Js.Number (Js.Int 0))
                     (keysContent fresh alice_account bob_entry bob)))) = true)
    as Hpost by reflexivity.
  assert (validateMessage
            (JObj (set_prop "created" (JNum Date_now) [("content", JStr "hi")])) = true)
    as Hvalid by (vm_compute; reflexivity).
  destruct (sendConvMessage_first_message bob bob room room bob_entry alice_account
              (MessageText "hi") fresh
              eq_refl Hplain Haddr Hb Haddr Hsome Hroom Hroom Hentry
              Hconv eq_refl Hpost Hvalid)
    as (st' & Hsend & Hposted & _).
  exists st'. split; [exact Hsend|]. by rewrite Hposted.
Defined.

Lemma sendConvMessage_flag_witness :
  sendConvMessage bob (MessageText "hi") (set_sending_message true fresh)
  = Return None (set_sending_message true fresh).
Proof.
  by destruct (sendConvMessage_flag bob (MessageText "hi")
                 (set_sending_message true fresh)) as [Hbusy _]; apply Hbusy.
Defined.

(** Alice loads the room and then starts to send. *)
Lemma loaded_by_steps :
  rtc step (mkConfig fresh [])
    (mkConfig loaded [AwaitAccount bob (Some (Sender bob room (MessageText "hi")))]).
Proof.
  eapply rtc_l; [apply (step_getRoom _ room)|].
  eapply rtc_l; [apply (step_getRoom_reply _ room 0%nat log); by left|].
  eapply rtc_l; [apply (step_sendConvMessage _ bob (MessageText "hi"))|].
  match goal with
  | |- rtc step ?c ?c' => assert (c = c') as -> by (vm_compute; reflexivity)
  end.
  apply rtc_refl.
Defined.

Lemma messages_stay_valid_witness : messages_valid loaded.
Proof.
  assert (messages_valid fresh) as Hfresh by (split; constructor).
  by destruct (messages_stay_valid _ _ loaded_by_steps Hfresh).
Defined.

Lemma getRoom_messages_are_its_events_witness :
  ∃ new room',
    emitted (state_of (getRoom room log fresh)) = new
    ∧ objs (state_of (getRoom room log fresh)) !! 0%nat = Some room'
    ∧ ConvObj.messages room' = msg_events new.
Proof.
  assert (getRoom room log fresh = Return () (state_of (getRoom room log fresh)))
    as Hload by (vm_compute; reflexivity).
  destruct (getRoom_messages_are_its_events room log fresh _ Hload)
    as (new & room' & Hev & _ & Hroom & Hmsgs & _).
  exists new, room'. by split_and!.
Defined.


Lemma canReceiveMessages_agrees_witness :
  canReceiveMessages carol fresh = Return false fresh.
Proof.
  assert (toChecksumAddress (Some carol) = Some carol) as Hc by (vm_compute; reflexivity).
  destruct (canReceiveMessages_agrees carol carol fresh Hc)
    as (answer & Hanswer & Hiff & _).
  assert (startConv carol fresh = Return None fresh) as Hnone
    by (vm_compute; reflexivity).
  apply Hiff in Hnone. subst answer. exact Hanswer.
Defined.

Lemma sendConvMessage_by_room_id_witness :
  sendConvMessage room (MessageText "hi") fresh
  = sendConvMessage bob (MessageText "hi") fresh.
Proof.
  assert (bob ≠ account_key fresh) as Hne by discriminate.
  assert (generateRoomId (account_key fresh) bob = Some room) as Hroom
    by (vm_compute; reflexivity).
  assert (isRoomId bob = false) as Hplain by (vm_compute; reflexivity).
  assert (isAddress bob = true) as Haddr by (vm_compute; reflexivity).
  assert (toChecksumAddress (Some bob) = Some bob) as Hb by (vm_compute; reflexivity).
  assert (toChecksumAddress (Some (account_key fresh)) = Some (account_key fresh))
    as Ha by (vm_compute; reflexivity).
  assert (isRoomId (account_key fresh) = false) as Hda by (vm_compute; reflexivity).
  apply (sendConvMessage_by_room_id bob bob room (MessageText "hi") fresh);
    assumption.
Defined.

(** Bob's ciphertext under k1 is delivered into the room Alice holds. *)
Lemma onMessageUpdate_delivers_witness :
  msg_events
    (emitted
       (onMessageUpdate
          (Entry.mk
             (Some (ContentMsg "k1{content:hi,created:1700000000000}{conte" "iv" bob None))
             (Some room) (Js.Number (Js.Int 2)))
          established))
  = [Message.mk hi room (Js.Number (Js.Int 2)) bob (room +:+ ".2")].
Proof.
  assert (room ≠ "") as Hne by discriminate.
  assert (decryptMessage "iv" "k1{content:hi,created:1700000000000}{conte"
            (ConvObj.mk ["k1"] [] (Js.Number (Js.Int 0)) (Js.Number (Js.Int 1)))
          = DecryptedContent hi) as Hdec by (vm_compute; reflexivity).
  destruct (onMessageUpdate_delivers
              (Entry.mk
                 (Some (ContentMsg "k1{content:hi,created:1700000000000}{conte" "iv" bob None))
                 (Some room) (Js.Number (Js.Int 2)))
              "k1{content:hi,created:1700000000000}{conte" "iv" bob None room 0%nat
              (ConvObj.mk ["k1"] [] (Js.Number (Js.Int 0)) (Js.Number (Js.Int 1)))
              established eq_refl eq_refl Hne eq_refl eq_refl) as [Hopen _].
  destruct (Hopen hi Hdec) as (Hemitted & _ & _).
  rewrite Hemitted. vm_compute. reflexivity.
Defined.

(** Bob loads the room after Alice's first message. *)
Lemma first_message_reaches_peer_witness :
  ∃ peer',
    getRoom room
      [ Entry.mk (Some (keysContent fresh alice_account bob_entry bob)) (Some room)
          (Js.Number (Js.Int 0));
        Entry.mk
          (Some (ContentMsg "k1{content:hi,created:1700000000000}{conte" "iv" alice None))
          (Some room) (Js.Number (Js.Int 1)) ]
      (mkMessaging bob (Some bob_account) ∅ [] ∅ false [] [] [])
    = Return () peer'
    ∧ msg_events (emitted peer')
      = [Message.mk hi room (Js.Number (Js.Int 1)) alice (room +:+ ".1")].
Proof.
  assert (account_key fresh ≠ bob) as Hne by discriminate.
  assert (Js.truthy_string (RegistryEntry.pub_key bob_entry) = true) as Hpub
    by reflexivity.
  assert (Js.truthy_string cryptoRandomString = true) as Hkey by reflexivity.
  assert (ecies_decrypt (Account.privateKey bob_account)
            (ecies_encrypt (RegistryEntry.pub_key bob_entry) cryptoRandomString)
          = Some cryptoRandomString) as Hopen by (vm_compute; reflexivity).
  assert (validateMessage hi = true) as Hvalid by (vm_compute; reflexivity).
  assert (JSON_parse (JSON_stringify hi) = Some hi) as Hjson by (vm_compute; reflexivity).
  assert (JSON_stringify hi ≠ "") as Htext by discriminate.
  destruct (first_message_reaches_peer
              fresh alice_account bob_entry bob room hi
              (mkMessaging bob (Some bob_account) ∅ [] ∅ false [] [] []) bob_account
              eq_refl Hne eq_refl Hpub Hkey Hopen Hvalid Hjson Htext)
    as (peer' & l & Hrun & _ & _ & Hemitted).
  exists peer'. split; [exact Hrun|].
  rewrite Hemitted. reflexivity.
Defined.

End MoreExamples.
